(** * SQLiteKV: the namespaced key-value store of pimp-my-ride-mcp

    A shallow embedding of [src/storage/sqlite.ts] (class [SQLiteKV]) and of
    the interfaces of [src/storage/kv.ts], followed by the properties of the
    store: compare-and-set versioning, expiration, deletion, listing.

    The [kv] table is a finite map from its primary key [(ns, key)] to the
    remaining columns.  Every method takes the table and the instant read
    from [Date.now()] and returns its outcome, with the new table when the
    method writes.  Integers are [Z]: SQLite's 64-bit integers and
    JavaScript's numbers are not distinguished, and no overflow is
    modelled.  Text is kept in its UTF-8 form, one [ascii] per byte, which
    is the form SQLite compares and orders (BINARY collation). *)

From Stdlib Require Import ZArith String Ascii List Lia Bool.
From stdpp Require Import base option list gmap strings sorting.

Local Open Scope Z_scope.

(** ** The JavaScript runtime

    What the store takes from Node and from V8, not from this repository:
    the values callers hand over, the JSON codec and the conversion of a
    buffer to text. *)

Class JsRuntime := {
  (** the values of type [unknown] passed to [set] and returned by [get] *)
  JsValue : Type;
  (** [Buffer.from(JSON.stringify(v), 'utf-8')]; [None] when it throws:
      [JSON.stringify] throws on cycles and BigInt, and it returns
      [undefined] on [undefined] and functions, which [Buffer.from] rejects *)
  JSON_stringify : JsValue → option string;
  (** [JSON.parse(text)]; [None] when it throws a SyntaxError *)
  JSON_parse : string → option JsValue;
  (** [value as Buffer]: the bytes of a value stored with another content type *)
  as_Buffer : JsValue → string;
  (** [row.value as T]: a buffer read back as a value *)
  of_Buffer : string → JsValue;
  (** [buf.toString('utf-8')]: ill-formed sequences are replaced, well-formed
      text is returned as it is *)
  utf8_toString : string → string
}.

(** ** Outcomes *)

(** The three [throw new Error("CAS failed: ...")] of [set], by message. *)
Inductive cas_failure :=
  | does_not_exist
  | version_mismatch
  | concurrent_update.

Inductive exn :=
  | CAS_failed (why : cas_failure)
  | TypeError
  | SyntaxError.

Inductive result (A : Type) :=
  | Ok (a : A)
  | Throw (e : exn).
Arguments Ok {A} a.
Arguments Throw {A} e.

(** ** The data model of [kv.ts] and the schema of [sqlite.ts] *)

Module KvRow.
(** The columns of [kv] besides the primary key [(ns, key)]. *)
Record t := mk {
  value : string;
  content_type : string;
  version : Z;
  expires_at : option Z;
  updated_at : Z
}.
End KvRow.

Abbreviation table := (gmap (string * string) KvRow.t).

Module GetOptions.
Record t := mk { contentType : option string }.
End GetOptions.

Module SetOptions.
Record t := mk {
  ttl : option Z;
  contentType : option string;
  cas : option Z
}.
End SetOptions.

Module ListOptions.
Record t := mk {
  limit : option Z;
  cursor : option string;
  prefix : option string
}.
End ListOptions.

Record ValueMetadata := {
  version : Z;
  expiresAt : option Z;
  updatedAt : Z;
  contentType : string
}.

Record GetResult `{JsRuntime} := {
  value : JsValue;
  metadata : ValueMetadata
}.

Record ListResult := {
  keys : list string;
  cursor : option string
}.

Definition application_json : string := "application/json".

(** JavaScript truthiness of a string: the empty string is falsy. *)
Definition truthy (s : string) : bool := negb (String.eqb s "").

(** [expires_at IS NOT NULL AND expires_at <= now] *)
Definition expired (now : Z) (r : KvRow.t) : bool :=
  match KvRow.expires_at r with
  | Some e => e <=? now
  | None => false
  end.

(** The result of [getStats]. *)
Record Stats := {
  totalEntries : Z;
  expiredEntries : Z;
  namespaces : Z
}.

(** ** SQLite's [LIKE]

    The built-in operator on NUL-free UTF-8 text, without [ESCAPE]: [%]
    stands for any run of characters, [_] for one character (a whole UTF-8
    sequence), and any other character for itself, the letters of ASCII
    without regard to case. *)

Module Like.

Definition is_continuation (b : ascii) : bool :=
  ((128 <=? N_of_ascii b) && (N_of_ascii b <? 192))%N.

Definition is_lead (b : ascii) : bool := (192 <=? N_of_ascii b)%N.

Definition to_lower (b : ascii) : ascii :=
  if ((65 <=? N_of_ascii b) && (N_of_ascii b <=? 90))%N
  then ascii_of_N (N_of_ascii b + 32)
  else b.

Fixpoint skip_continuation (s : string) : string :=
  match s with
  | String b s' => if is_continuation b then skip_continuation s' else s
  | EmptyString => EmptyString
  end.

(** [%] followed by the pattern recognised by [k]: [k] is tried at every
    character boundary of [s]; [inchar] tells that the bytes read last
    began a multi-byte character. *)
Fixpoint star (k : string → bool) (inchar : bool) (s : string) : bool :=
  match s with
  | EmptyString => k EmptyString
  | String b s' =>
      if inchar && is_continuation b then star k true s'
      else k s || star k (is_lead b) s'
  end.

Fixpoint like (pattern s : string) : bool :=
  match pattern with
  | EmptyString => String.eqb s EmptyString
  | String p pattern' =>
      if Ascii.eqb p "%" then star (like pattern') false s
      else match s with
           | EmptyString => false
           | String b s' =>
               if Ascii.eqb p "_"
               then like pattern' (if is_lead b then skip_continuation s' else s')
               else Ascii.eqb (to_lower p) (to_lower b) && like pattern' s'
           end
  end.

End Like.

(** ** Base64, as [Buffer] has it *)

Module Base64.

Definition alphabet : string :=
  "ABCDEFGHIJKLMNOPQRSTUVWXYZabcdefghijklmnopqrstuvwxyz0123456789+/".

Definition digit (n : N) : ascii :=
  match String.get (N.to_nat n) alphabet with
  | Some c => c
  | None => "="%char
  end.

(** [buf.toString('base64')]: RFC 4648 with padding. *)
Fixpoint encode (s : string) : string :=
  match s with
  | EmptyString => EmptyString
  | String a EmptyString =>
      let x := N_of_ascii a in
      String (digit (x / 4)) (String (digit (x mod 4 * 16)) "==")
  | String a (String b EmptyString) =>
      let x := N_of_ascii a in
      let y := N_of_ascii b in
      String (digit (x / 4)) (String (digit (x mod 4 * 16 + y / 16))
        (String (digit (y mod 16 * 4)) "="))
  | String a (String b (String c rest)) =>
      let x := N_of_ascii a in
      let y := N_of_ascii b in
      let z := N_of_ascii c in
      String (digit (x / 4)) (String (digit (x mod 4 * 16 + y / 16))
        (String (digit (y mod 16 * 4 + z / 64)) (String (digit (z mod 64))
          (encode rest))))
  end%N.

(** The value of a character in either alphabet (standard or URL-safe). *)
Definition unbase64 (c : ascii) : option N :=
  let n := N_of_ascii c in
  (if (65 <=? n) && (n <=? 90) then Some (n - 65)
   else if (97 <=? n) && (n <=? 122) then Some (n - 71)
   else if (48 <=? n) && (n <=? 57) then Some (n + 4)
   else if (n =? 43) || (n =? 45) then Some 62
   else if (n =? 47) || (n =? 95) then Some 63
   else None)%N.

(** The legal characters before the first [=]; the others are skipped. *)
Fixpoint sextets (s : string) : list N :=
  match s with
  | EmptyString => []
  | String c s' =>
      if Ascii.eqb c "=" then []
      else match unbase64 c with
           | Some n => n :: sextets s'
           | None => sextets s'
           end
  end.

Fixpoint bytes_of_sextets (l : list N) : string :=
  match l with
  | a :: b :: c :: d :: l' =>
      String (ascii_of_N (a * 4 + b / 16))
        (String (ascii_of_N (b mod 16 * 16 + c / 4))
          (String (ascii_of_N (c mod 4 * 64 + d)) (bytes_of_sextets l')))
  | [a; b; c] =>
      String (ascii_of_N (a * 4 + b / 16))
        (String (ascii_of_N (b mod 16 * 16 + c / 4)) EmptyString)
  | [a; b] => String (ascii_of_N (a * 4 + b / 16)) EmptyString
  | _ => EmptyString
  end%N.

(** [Buffer.from(s, 'base64')]: it never throws. *)
Definition decode (s : string) : string := bytes_of_sextets (sextets s).

End Base64.

(** ** The methods of [SQLiteKV] *)

Module SQLiteKV.
Section methods.
Context `{rt : JsRuntime}.

(** [#cleanupExpired]:
    [DELETE FROM kv WHERE ns = ? AND key = ?
       AND expires_at IS NOT NULL AND expires_at <= ?] *)
Definition cleanupExpired (db : table) (now : Z) (ns key : string) : table :=
  match db !! (ns, key) with
  | Some row => if expired now row then base.delete (ns, key) db else db
  | None => db
  end.

(** [options?.contentType && row.content_type !== options.contentType] *)
Definition contentType_mismatch (options : option GetOptions.t) (row : KvRow.t) : bool :=
  match options ≫= GetOptions.contentType with
  | Some ct => truthy ct && negb (String.eqb (KvRow.content_type row) ct)
  | None => false
  end.

(** "Parse value based on content type" *)
Definition parse_value (row : KvRow.t) : option JsValue :=
  if String.eqb (KvRow.content_type row) application_json
  then JSON_parse (utf8_toString (KvRow.value row))
  else Some (of_Buffer (KvRow.value row)).

Definition metadata_of (row : KvRow.t) : ValueMetadata :=
  {| version := KvRow.version row;
     expiresAt := KvRow.expires_at row;
     updatedAt := KvRow.updated_at row;
     contentType := KvRow.content_type row |}.

(** [get]; [now] is the instant read by [#cleanupExpired]. *)
Definition get (db : table) (now : Z) (ns key : string)
    (options : option GetOptions.t) : result (option GetResult) * table :=
  let db := cleanupExpired db now ns key in
  match db !! (ns, key) with
  | None => (Ok None, db)
  | Some row =>
      if contentType_mismatch options row then (Ok None, db)
      else match parse_value row with
           | None => (Throw SyntaxError, db)
           | Some v => (Ok (Some {| value := v; metadata := metadata_of row |}), db)
           end
  end.

(** [ttl ? now + ttl * 1000 : null] *)
Definition expiresAt_of (now : Z) (ttl : option Z) : option Z :=
  match ttl with
  | Some t => if t =? 0 then None else Some (now + t * 1000)
  | None => None
  end.

(** "Serialize value based on content type".  Under another content type
    than JSON the cast [value as Buffer] is taken at its word: the value is
    a Buffer.  [None] is a value of which the JSON branch makes no buffer;
    which error the runtime raises there (a TypeError, or what a [toJSON]
    of the value throws) is not told apart, [set] gives [TypeError] for
    all of them. *)
Definition serialize (contentType : string) (value : JsValue) : option string :=
  if String.eqb contentType application_json
  then JSON_stringify value
  else Some (as_Buffer value).

(** [UPDATE kv SET value = ?, content_type = ?, version = version + 1,
      expires_at = ?, updated_at = ?
     WHERE ns = ? AND key = ? AND version = ?], with [info.changes]. *)
Definition update_where_version (db : table) (ns key : string)
    (serialized contentType : string) (expiresAt : option Z) (now cas : Z)
    : Z * table :=
  match db !! (ns, key) with
  | Some row =>
      if KvRow.version row =? cas
      then (1, <[(ns, key) := KvRow.mk serialized contentType (KvRow.version row + 1)
                              expiresAt now]> db)
      else (0, db)
  | None => (0, db)
  end.

(** [INSERT INTO kv (...) VALUES (?, ?, ?, ?, 1, ?, ?)
     ON CONFLICT(ns, key) DO UPDATE SET value = excluded.value, ...,
       version = version + 1, ... RETURNING version] *)
Definition upsert (db : table) (ns key : string)
    (serialized contentType : string) (expiresAt : option Z) (now : Z)
    : Z * table :=
  let version :=
    match db !! (ns, key) with
    | Some row => KvRow.version row + 1
    | None => 1
    end in
  (version, <[(ns, key) := KvRow.mk serialized contentType version expiresAt now]> db).

(** [set]; [now] is the instant read on entry, [now_get] the one read by the
    [get] of the CAS branch. *)
Definition set (db : table) (now now_get : Z) (ns key : string)
    (value : JsValue) (options : option SetOptions.t) : result Z * table :=
  let ttl := options ≫= SetOptions.ttl in
  let contentType := default application_json (options ≫= SetOptions.contentType) in
  let cas := options ≫= SetOptions.cas in
  let expiresAt := expiresAt_of now ttl in
  match serialize contentType value with
  | None => (Throw TypeError, db)
  | Some serialized =>
      match cas with
      | Some cas =>
          match get db now_get ns key None with
          | (Throw e, db) => (Throw e, db)
          | (Ok None, db) => (Throw (CAS_failed does_not_exist), db)
          | (Ok (Some current), db) =>
              if negb (version (metadata current) =? cas)
              then (Throw (CAS_failed version_mismatch), db)
              else
                let '(changes, db) :=
                  update_where_version db ns key serialized contentType expiresAt now cas in
                if changes =? 0
                then (Throw (CAS_failed concurrent_update), db)
                else (Ok (cas + 1), db)
          end
      | None =>
          let '(version, db) := upsert db ns key serialized contentType expiresAt now in
          (Ok version, db)
      end
  end.

(** [DELETE FROM kv WHERE expires_at IS NOT NULL AND expires_at <= ?],
    returning [info.changes]. *)
Definition cleanupAllExpired (db : table) (now : Z) : Z * table :=
  (Z.of_nat (size (filter (λ kr, expired now kr.2 = true) db)),
   filter (λ kr, expired now kr.2 = false) db).

(** [DELETE FROM kv WHERE ns = ? AND key = ?] and [info.changes > 0] *)
Definition delete (db : table) (ns key : string) : bool * table :=
  match db !! (ns, key) with
  | Some _ => (true, base.delete (ns, key) db)
  | None => (false, db)
  end.

(** [getStats]: [COUNT( * )] of the table, [COUNT( * )] of the rows with
    [expires_at IS NOT NULL AND expires_at <= ?], [COUNT(DISTINCT ns)]. *)
Definition getStats (db : table) (now : Z) : Stats :=
  {| totalEntries := Z.of_nat (size db);
     expiredEntries := Z.of_nat (size (filter (λ kr, expired now kr.2 = true) db));
     namespaces :=
       Z.of_nat (size (list_to_set ((λ kr : string * string * KvRow.t, kr.1.1)
                                      <$> map_to_list db) : gset string)) |}.

(** *** [list] *)

(** [LIMIT n]: a negative [n] puts no bound. *)
Definition sql_limit {A} (n : Z) (l : list A) : list A :=
  if n <? 0 then l else take (Z.to_nat n) l.

(** [rows.slice(0, n)]: a negative [n] counts from the end. *)
Definition slice0 {A} (l : list A) (n : Z) : list A :=
  if n <? 0 then take (length l - Z.to_nat (- n))%nat l else take (Z.to_nat n) l.

(** [WHERE ns = ? [AND key LIKE ?] [AND key > ?]], the bracketed parts
    under [if (prefix)] and [if (startKey)]. *)
Definition where_inner (ns : string) (prefix : option string) (startKey : string)
    (r : string * string * KvRow.t) : bool :=
  let '(n, key, _) := r in
  String.eqb n ns
  && match prefix with
     | Some p => if truthy p then Like.like (p +:+ "%") key else true
     | None => true
     end
  && (if truthy startKey then String.ltb startKey key else true).

(** [SELECT key FROM kv WHERE ... ORDER BY key] *)
Definition ordered_keys (db : table) (ns : string) (prefix : option string)
    (startKey : string) : list string :=
  merge_sort String.le
    ((λ r : string * string * KvRow.t, r.1.2)
       <$> filter (λ r, where_inner ns prefix startKey r) (map_to_list db)).

(** [... LIMIT ?], the bound being [limit + 1]. *)
Definition select_inner (db : table) (ns : string) (prefix : option string)
    (startKey : string) (limit : Z) : list string :=
  sql_limit (limit + 1) (ordered_keys db ns prefix startKey).

(** [SELECT 1 FROM kv WHERE ns = ? AND key = kv.key
       AND expires_at IS NOT NULL AND expires_at <= ?].
    The subquery has its own [FROM kv], so both [key] and [kv.key] name
    the column of the row it scans: the row of the enclosing query does
    not occur in it. *)
Definition exists_expired (db : table) (ns : string) (now : Z) : bool :=
  existsb
    (λ '(n, key, row), String.eqb n ns && String.eqb key key && expired now row)
    (map_to_list db).

(** [SELECT key FROM (...) WHERE NOT EXISTS (...)]: the rows of [list],
    in the order of the inner scan. *)
Definition select_rows (db : table) (now : Z) (ns : string)
    (prefix : option string) (startKey : string) (limit : Z) : list string :=
  filter (λ _ : string, negb (exists_expired db ns now))
    (select_inner db ns prefix startKey limit).

(** [cursor ? Buffer.from(cursor, 'base64').toString('utf-8') : ''] *)
Definition startKey_of (cursor : option string) : string :=
  match cursor with
  | Some c => if truthy c then utf8_toString (Base64.decode c) else ""
  | None => ""
  end.

(** [list]; [Buffer.from(undefined)] throws a TypeError. *)
Definition list (db : table) (now : Z) (ns : string)
    (options : option ListOptions.t) : result ListResult :=
  let limit := default 100 (options ≫= ListOptions.limit) in
  let startKey := startKey_of (options ≫= ListOptions.cursor) in
  let prefix := options ≫= ListOptions.prefix in
  let rows := select_rows db now ns prefix startKey limit in
  let hasMore := Z.of_nat (length rows) >? limit in
  let page := if hasMore then slice0 rows limit else rows in
  if hasMore then
    match last page with
    | Some k => Ok {| keys := page; cursor := Some (Base64.encode k) |}
    | None => Throw TypeError
    end
  else Ok {| keys := page; cursor := None |}.

End methods.
End SQLiteKV.

(** ** A runtime to compute with

    Values are represented by their JSON text, buffers by their bytes, so
    that the codec is the identity; text is taken to be well formed. *)

Definition text_runtime : JsRuntime :=
  {| JsValue := string;
     JSON_stringify := Some;
     JSON_parse := Some;
     as_Buffer := id;
     of_Buffer := id;
     utf8_toString := id |}.

(** ** The helpers of [kv.ts] *)

Module KVHelpers.
Section helpers.
Context `{rt : JsRuntime}.

(** [kv.get(ns, key, { contentType: "application/json" })] *)
Definition getJSON (db : table) (now : Z) (ns key : string)
    : result (option GetResult) * table :=
  SQLiteKV.get db now ns key (Some (GetOptions.mk (Some application_json))).

(** [kv.set(ns, key, value, { ...options, contentType: "application/json" })] *)
Definition setJSON (db : table) (now now_get : Z) (ns key : string)
    (value : JsValue) (options : option SetOptions.t) : result Z * table :=
  SQLiteKV.set db now now_get ns key value
    (Some (SetOptions.mk (options ≫= SetOptions.ttl) (Some application_json)
             (options ≫= SetOptions.cas))).

End helpers.
End KVHelpers.

(** ** [tools/builds.ts], [auth/pomerium.ts] and [domain/models.ts] *)

(** [UserIdentity] *)
Record UserIdentity := {
  userId : string;
  email : option string;
  name : option string;
  authenticated : bool
}.

(** [canAccessBuild] *)
Definition canAccessBuild (identity : UserIdentity) (buildUserId : string) : bool :=
  String.eqb (userId identity) buildUserId.

(** The [throw new Error(...)] of [builds.ts], by message, and the errors of
    the store that pass through. *)
Inductive build_error :=
  | Cannot_delete_the_active_build
  | Build_not_found
  | Build_already_exists
  | Access_denied
  | Store_error (e : exn).

Inductive outcome (A : Type) :=
  | Returned (a : A)
  | Raised (e : build_error).
Arguments Returned {A} a.
Arguments Raised {A} e.

(** The options of a car that count in its score. *)
Inductive BodyKit := bk_stock | bk_sport | bk_racing | bk_drift | bk_luxury | bk_rally | bk_muscle.
Inductive WheelType := wh_stock | wh_sport | wh_racing | wh_offroad | wh_chrome | wh_neon | wh_spinner.
Inductive Spoiler := sp_none | sp_stock | sp_sport | sp_racing | sp_gt_wing | sp_ducktail.

(** [Performance], the four stats taken as integers (on which the
    arithmetic of JavaScript numbers is exact). *)
Record Performance := {
  power : Z;
  grip : Z;
  aero : Z;
  weight : Z
}.

(** The fields of [CarConfig] that [calculatePerformanceScore] reads. *)
Record CarConfig := {
  wheels : WheelType;
  bodyKit : BodyKit;
  spoiler : Spoiler;
  performance : Performance
}.

Module Models.

(** [CarConfigSchema.parse({})]: the defaults of the schema. *)
Definition createDefaultCarConfig : CarConfig :=
  {| wheels := wh_stock;
     bodyKit := bk_stock;
     spoiler := sp_none;
     performance := {| power := 50; grip := 50; aero := 50; weight := 50 |} |}.

Definition bodyKitBonus (k : BodyKit) : Z :=
  match k with
  | bk_stock => 0 | bk_sport => 5 | bk_racing => 10 | bk_drift => 7
  | bk_luxury => 3 | bk_rally => 8 | bk_muscle => 6
  end.

Definition wheelBonus (w : WheelType) : Z :=
  match w with
  | wh_stock => 0 | wh_sport => 3 | wh_racing => 8 | wh_offroad => 5
  | wh_chrome => 1 | wh_neon => 2 | wh_spinner => 0
  end.

Definition spoilerBonus (sp : Spoiler) : Z :=
  match sp with
  | sp_none => 0 | sp_stock => 2 | sp_sport => 4 | sp_racing => 7
  | sp_gt_wing => 9 | sp_ducktail => 5
  end.

(** [Math.round] of a number of quarters [q / 4]: the nearest integer, a
    half going up. *)
Definition round_quarters (q : Z) : Z := (q + 2) / 4.

(** [calculatePerformanceScore]; the score before rounding is
    [(power + grip + aero + weight) / 4] plus the three bonuses, kept here
    in quarters. *)
Definition calculatePerformanceScore (car : CarConfig) : Z :=
  let p := performance car in
  let score :=
    (power p + grip p + aero p + weight p)
    + 4 * bodyKitBonus (bodyKit car)
    + 4 * wheelBonus (wheels car)
    + 4 * spoilerBonus (spoiler car) in
  Z.min 100 (round_quarters score).

End Models.

Module Builds.

Definition BUILDS_NAMESPACE : string := "builds".
Definition ACTIVE_BUILD_KEY : string := "active".

(** [`${userId}:${buildId}`] *)
Definition buildKey (userId buildId : string) : string :=
  userId +:+ ":" +:+ buildId.

(** [[a-z0-9]] *)
Definition is_alnum (c : ascii) : bool :=
  (((97 <=? N_of_ascii c) && (N_of_ascii c <=? 122))
   || ((48 <=? N_of_ascii c) && (N_of_ascii c <=? 57)))%N.

(** [.replace(/[^a-z0-9]+/g, '_')]: [in_run] tells that the character
    before was outside [[a-z0-9]]. *)
Fixpoint replace_runs (in_run : bool) (s : string) : string :=
  match s with
  | EmptyString => EmptyString
  | String c s' =>
      if is_alnum c then String c (replace_runs false s')
      else if in_run then replace_runs true s'
      else String "_" (replace_runs true s')
  end.

(** [.replace(/^_+|_+$/g, '')], the leading part ... *)
Fixpoint drop_leading (s : string) : string :=
  match s with
  | String c s' => if Ascii.eqb c "_" then drop_leading s' else s
  | EmptyString => EmptyString
  end.

(** ... and the trailing part. *)
Fixpoint drop_trailing (s : string) : string :=
  match s with
  | EmptyString => EmptyString
  | String c s' =>
      let t := drop_trailing s' in
      if Ascii.eqb c "_" && String.eqb t EmptyString then EmptyString
      else String c t
  end.

Section with_runtime.
Context `{rt : JsRuntime}.
(** [String.prototype.toLowerCase], on text in UTF-8. *)
Variable toLowerCase : string → string.

(** [sanitizeBuildId] *)
Definition sanitizeBuildId (name : string) : string :=
  String.substring 0 50
    (drop_trailing (drop_leading (replace_runs false (toLowerCase name)))).

(** [deleteBuild] *)
Definition deleteBuild (db : table) (identity : UserIdentity) (buildId : string)
    : outcome bool * table :=
  if String.eqb buildId ACTIVE_BUILD_KEY
  then (Raised Cannot_delete_the_active_build, db)
  else
    let '(removed, db) :=
      SQLiteKV.delete db BUILDS_NAMESPACE (buildKey (userId identity) buildId) in
    (Returned removed, db).

(** The builds are objects of JavaScript; what the functions below do with
    them is taken from the language:
    [createBuild(id)] at the instant [now], [BuildSchema.parse] of the
    defaults; *)
Variable createBuild : string → Z → JsValue.
(** [{ ...activeBuild, id, name, createdAt: activeBuild.createdAt, updatedAt }]; *)
Variable saved_as : JsValue → string → string → Z → JsValue.
(** [{ ...build, id: ACTIVE_BUILD_KEY, updatedAt }]; *)
Variable made_active : JsValue → Z → JsValue.
(** [build.car]. *)
Variable car_of : JsValue → CarConfig.

(** [getCurrentBuild]; the instants are those read by [get], by
    [createBuild] and by [set]. *)
Definition getCurrentBuild (db : table) (identity : UserIdentity)
    (t_get t_new t_set : Z) : outcome JsValue * table :=
  let key := buildKey (userId identity) ACTIVE_BUILD_KEY in
  match KVHelpers.getJSON db t_get BUILDS_NAMESPACE key with
  | (Throw e, db) => (Raised (Store_error e), db)
  | (Ok (Some result), db) => (Returned (value result), db)
  | (Ok None, db) =>
      let newBuild := createBuild ACTIVE_BUILD_KEY t_new in
      match KVHelpers.setJSON db t_set t_set BUILDS_NAMESPACE key newBuild None with
      | (Throw e, db) => (Raised (Store_error e), db)
      | (Ok _, db) => (Returned newBuild, db)
      end
  end.

(** [saveBuild]; after the three instants of [getCurrentBuild], those read
    by the [get] of the check, by [Date.now()] and by [set]. *)
Definition saveBuild (db : table) (identity : UserIdentity) (name : string)
    (t_get t_new t_set t_check t_saved t_write : Z) : outcome JsValue * table :=
  match getCurrentBuild db identity t_get t_new t_set with
  | (Raised e, db) => (Raised e, db)
  | (Returned activeBuild, db) =>
      let buildId := sanitizeBuildId name in
      let existingKey := buildKey (userId identity) buildId in
      match KVHelpers.getJSON db t_check BUILDS_NAMESPACE existingKey with
      | (Throw e, db) => (Raised (Store_error e), db)
      | (Ok (Some _), db) => (Raised Build_already_exists, db)
      | (Ok None, db) =>
          let savedBuild := saved_as activeBuild buildId name t_saved in
          match KVHelpers.setJSON db t_write t_write BUILDS_NAMESPACE existingKey
                  savedBuild None with
          | (Throw e, db) => (Raised (Store_error e), db)
          | (Ok _, db) => (Returned savedBuild, db)
          end
      end
  end.

(** [loadBuild] *)
Definition loadBuild (db : table) (identity : UserIdentity) (buildId : string)
    (t_get t_active t_set : Z) : outcome JsValue * table :=
  let key := buildKey (userId identity) buildId in
  match KVHelpers.getJSON db t_get BUILDS_NAMESPACE key with
  | (Throw e, db) => (Raised (Store_error e), db)
  | (Ok None, db) => (Raised Build_not_found, db)
  | (Ok (Some result), db) =>
      let build := value result in
      if negb (canAccessBuild identity (userId identity))
      then (Raised Access_denied, db)
      else
        let activeBuild := made_active build t_active in
        let activeKey := buildKey (userId identity) ACTIVE_BUILD_KEY in
        match KVHelpers.setJSON db t_set t_set BUILDS_NAMESPACE activeKey
                activeBuild None with
        | (Throw e, db) => (Raised (Store_error e), db)
        | (Ok _, db) => (Returned activeBuild, db)
        end
  end.

(** [getBuildDetails], the build with its [performanceScore];
    [buildId] is ['active'] when not given. *)
Definition getBuildDetails (db : table) (identity : UserIdentity)
    (buildId : option string) (t_get t_new : Z) : outcome (JsValue * Z) * table :=
  let buildId := default ACTIVE_BUILD_KEY buildId in
  let key := buildKey (userId identity) buildId in
  match KVHelpers.getJSON db t_get BUILDS_NAMESPACE key with
  | (Throw e, db) => (Raised (Store_error e), db)
  | (Ok None, db) =>
      if String.eqb buildId ACTIVE_BUILD_KEY
      then (Returned (createBuild ACTIVE_BUILD_KEY t_new, 50), db)
      else (Raised Build_not_found, db)
  | (Ok (Some result), db) =>
      let build := value result in
      (Returned (build, Models.calculatePerformanceScore (car_of build)), db)
  end.

End with_runtime.

(** The characters of a build id: [[a-z0-9_]]. *)
Fixpoint id_chars (s : string) : bool :=
  match s with
  | EmptyString => true
  | String c s' => (is_alnum c || Ascii.eqb c "_") && id_chars s'
  end.

End Builds.

(** ** The anonymous id of [auth/pomerium.ts] *)

Module Pomerium.

(** [ToInt32]: the integer of 32 bits, signed, that [x | 0] and [x << n]
    give. *)
Definition wrap32 (x : Z) : Z := (x + 2 ^ 31) mod 2 ^ 32 - 2 ^ 31.

(** [((acc << 5) - acc + char.charCodeAt(0)) | 0] *)
Definition hash_step (acc code : Z) : Z :=
  wrap32 (wrap32 (acc * 2 ^ 5) - acc + code).

(** [Array.from(combined).reduce(..., 0)], on the character codes. *)
Definition hash_codes (codes : list Z) : Z := fold_left hash_step codes 0.

Definition digits36 : string := "0123456789abcdefghijklmnopqrstuvwxyz".

Fixpoint base36_digits (fuel : nat) (n : Z) (acc : string) : string :=
  match fuel with
  | O => acc
  | S fuel =>
      let d := match String.get (Z.to_nat (n mod 36)) digits36 with
               | Some c => c
               | None => "0"%char
               end in
      if n <? 36 then String d acc
      else base36_digits fuel (n / 36) (String d acc)
  end.

(** [n.toString(36)] for an integer [n] that is not negative. *)
Definition toString36 (n : Z) : string :=
  base36_digits (S (Z.to_nat (Z.log2 n))) n EmptyString.

Section with_text.
(** [Array.from(s).map(char => char.charCodeAt(0))] *)
Variable char_codes : string → list Z.

(** [generateAnonymousId], from [req.ip] and the [user-agent] header. *)
Definition generateAnonymousId (req_ip user_agent : option string) : string :=
  let ip := match req_ip with
            | Some s => if truthy s then s else "unknown"
            | None => "unknown"
            end in
  let userAgent := match user_agent with
                   | Some s => if truthy s then s else "unknown"
                   | None => "unknown"
                   end in
  let combined := ip +:+ ":" +:+ userAgent in
  let hash := hash_codes (char_codes combined) in
  "anon_" +:+ toString36 (Z.abs hash).

End with_text.
End Pomerium.

(** ** Callers of the store *)

(** The pages collected by a caller of [list]. *)
Inductive run (A : Type) :=
  | Done (a : A)
  | Failed (e : exn)
  | OutOfFuel.
Arguments Done {A} a.
Arguments Failed {A} e.
Arguments OutOfFuel {A}.

(** Strictly ascending in the byte order of the keys. *)
Definition ascending (l : list string) : Prop :=
  StronglySorted (λ a b, String.ltb a b = true) l.

(** Where a caller stands: before the first call, or holding the cursor of
    the last key seen. *)
Definition at_position (seen : list string) (from : option string) : Prop :=
  (seen = [] ∧ from = None)
  ∨ ∃ k, last seen = Some k ∧ from = Some (Base64.encode k).

Section callers.
Context `{rt : JsRuntime}.

(** The key has a row that has not expired at [now] and that [get] can
    read: it is live, at version [v]. *)
Definition live_at (db : table) (now : Z) (ns key : string) (v : Z) : Prop :=
  ∃ row, db !! (ns, key) = Some row
         ∧ expired now row = false
         ∧ KvRow.version row = v
         ∧ is_Some (SQLiteKV.parse_value row).

(** The keys of [ns] whose row has not expired at [now]. *)
Definition live_key (db : table) (now : Z) (ns key : string) : Prop :=
  ∃ row, db !! (ns, key) = Some row ∧ expired now row = false.

(** Successive calls of [set] on one key, each with its instant, value
    and options; the versions they return. *)
Fixpoint set_each (db : table) (ns key : string)
    (calls : list (Z * JsValue * option SetOptions.t)) : list (result Z) * table :=
  match calls with
  | [] => ([], db)
  | (now, value, options) :: calls =>
      let '(r, db) := SQLiteKV.set db now now ns key value options in
      let '(rs, db) := set_each db ns key calls in
      (r :: rs, db)
  end.

(** A call of [set_each]: no [cas], and a value that can be serialised. *)
Definition unconditional (call : Z * JsValue * option SetOptions.t) : Prop :=
  call.2 ≫= SetOptions.cas = None
  ∧ is_Some (SQLiteKV.serialize
               (default application_json (call.2 ≫= SetOptions.contentType)) call.1.2).

(** [list] called first with the cursor [from], then with each cursor it returns,
    until it returns none; the pages in the order received. *)
Fixpoint paginate (fuel : nat) (db : table) (now : Z) (ns : string)
    (limit : option Z) (prefix : option string) (from : option string)
    : run (list (list string)) :=
  match fuel with
  | O => OutOfFuel
  | S fuel =>
      match SQLiteKV.list db now ns (Some (ListOptions.mk limit from prefix)) with
      | Throw e => Failed e
      | Ok page =>
          match cursor page with
          | None => Done [keys page]
          | Some next =>
              match paginate fuel db now ns limit prefix (Some next) with
              | Done pages => Done (keys page :: pages)
              | other => other
              end
          end
      end
  end.

End callers.

(** ** Reading one key *)

Section rows.
Context `{rt : JsRuntime}.

Lemma cleanupExpired_absent (db : table) now ns key :
  db !! (ns, key) = None → SQLiteKV.cleanupExpired db now ns key = db.
Proof. intros Hk. unfold SQLiteKV.cleanupExpired. by rewrite Hk. Qed.

Lemma cleanupExpired_live (db : table) now ns key row :
  db !! (ns, key) = Some row → expired now row = false →
  SQLiteKV.cleanupExpired db now ns key = db.
Proof. intros Hk He. unfold SQLiteKV.cleanupExpired. by rewrite Hk, He. Qed.

Lemma cleanupExpired_expired (db : table) now ns key row :
  db !! (ns, key) = Some row → expired now row = true →
  SQLiteKV.cleanupExpired db now ns key = base.delete (ns, key) db.
Proof. intros Hk He. unfold SQLiteKV.cleanupExpired. by rewrite Hk, He. Qed.

Lemma get_absent (db : table) now ns key options :
  db !! (ns, key) = None → SQLiteKV.get db now ns key options = (Ok None, db).
Proof.
  intros Hk. unfold SQLiteKV.get.
  rewrite cleanupExpired_absent by done. by rewrite Hk.
Qed.

Lemma get_expired (db : table) now ns key row options :
  db !! (ns, key) = Some row → expired now row = true →
  SQLiteKV.get db now ns key options = (Ok None, base.delete (ns, key) db).
Proof.
  intros Hk He. unfold SQLiteKV.get.
  rewrite (cleanupExpired_expired _ _ _ _ row) by done.
  by rewrite lookup_delete_eq.
Qed.

Lemma get_live_filtered (db : table) now ns key row v options :
  db !! (ns, key) = Some row → expired now row = false →
  SQLiteKV.contentType_mismatch options row = false →
  SQLiteKV.parse_value row = Some v →
  SQLiteKV.get db now ns key options
  = (Ok (Some {| value := v; metadata := SQLiteKV.metadata_of row |}), db).
Proof.
  intros Hk He Hct Hv. unfold SQLiteKV.get.
  rewrite (cleanupExpired_live _ _ _ _ row) by done.
  by rewrite Hk, Hct, Hv.
Qed.

Lemma get_live (db : table) now ns key row v :
  db !! (ns, key) = Some row → expired now row = false →
  SQLiteKV.parse_value row = Some v →
  SQLiteKV.get db now ns key None
  = (Ok (Some {| value := v; metadata := SQLiteKV.metadata_of row |}), db).
Proof. intros Hk He Hv. by apply get_live_filtered. Qed.

(** A live key is one that [get] returns, leaving the table as it is. *)
Lemma live_at_get (db : table) now ns key v :
  live_at db now ns key v ↔
  ∃ r, SQLiteKV.get db now ns key None = (Ok (Some r), db)
       ∧ version (metadata r) = v.
Proof.
  split.
  - intros (row & Hk & He & Hv & [x Hx]).
    eexists. split; [by apply (get_live _ _ _ _ row)|done].
  - intros (r & Hget & Hv). unfold SQLiteKV.get, SQLiteKV.cleanupExpired in Hget.
    destruct (db !! (ns, key)) as [row|] eqn:Hk; [|by rewrite Hk in Hget].
    destruct (expired now row) eqn:He.
    + by rewrite lookup_delete_eq in Hget.
    + rewrite Hk in Hget. simpl in Hget.
      destruct (SQLiteKV.parse_value row) as [x|] eqn:Hx; [|done].
      inversion Hget; subst r.
      exists row. split_and!; [done..|by eexists].
Qed.

End rows.

(** ** Compare-and-set *)

Section compare_and_set.
Context `{rt : JsRuntime}.

Lemma update_where_version_hit (db : table) ns key row serialized ct e now cas :
  db !! (ns, key) = Some row → KvRow.version row = cas →
  SQLiteKV.update_where_version db ns key serialized ct e now cas
  = (1, <[(ns, key) := KvRow.mk serialized ct (cas + 1) e now]> db).
Proof.
  intros Hk Hv. unfold SQLiteKV.update_where_version.
  rewrite Hk, Hv, Z.eqb_refl. done.
Qed.

(** The guarded [UPDATE] is where a race shows: when the row has moved to
    another version since it was read, nothing is written. *)
Lemma update_where_version_miss (db : table) ns key row serialized ct e now cas :
  db !! (ns, key) = Some row → KvRow.version row ≠ cas →
  SQLiteKV.update_where_version db ns key serialized ct e now cas = (0, db).
Proof.
  intros Hk Hv. unfold SQLiteKV.update_where_version.
  rewrite Hk. by apply Z.eqb_neq in Hv as ->.
Qed.

(** C1, as the code has it: [set] with [cas], for a value that can be
    serialised.  On a key live at version [v], [cas = v] succeeds, returns
    [v + 1] and stores the new row at version [v + 1]; any other [cas]
    fails with the CAS error "version mismatch" and the table is left as
    it was.  On a key without a row it fails with the CAS error "does not
    exist" and the table is left as it was.  On a key whose row has
    expired it fails with the same error, and the [get] it runs first has
    removed that row; no other row changes. *)
Theorem set_cas_outcomes (db : table) now now_get ns key value options cas serialized :
  options ≫= SetOptions.cas = Some cas →
  SQLiteKV.serialize (default application_json (options ≫= SetOptions.contentType)) value
    = Some serialized →
  let contentType := default application_json (options ≫= SetOptions.contentType) in
  let expiresAt := SQLiteKV.expiresAt_of now (options ≫= SetOptions.ttl) in
  (∀ v, live_at db now_get ns key v → cas = v →
     SQLiteKV.set db now now_get ns key value options
     = (Ok (v + 1),
        <[(ns, key) := KvRow.mk serialized contentType (v + 1) expiresAt now]> db))
  ∧ (∀ v, live_at db now_get ns key v → cas ≠ v →
       SQLiteKV.set db now now_get ns key value options
       = (Throw (CAS_failed version_mismatch), db))
  ∧ (db !! (ns, key) = None →
       SQLiteKV.set db now now_get ns key value options
       = (Throw (CAS_failed does_not_exist), db))
  ∧ (∀ row, db !! (ns, key) = Some row → expired now_get row = true →
       SQLiteKV.set db now now_get ns key value options
       = (Throw (CAS_failed does_not_exist), base.delete (ns, key) db)).
Proof.
  intros Hcas Hser contentType expiresAt. subst contentType expiresAt.
  unfold SQLiteKV.set. cbv zeta. rewrite Hcas, Hser. split_and!.
  - intros v (row & Hk & He & Hv & [x Hx]) ->.
    rewrite (get_live _ _ _ _ row x) by done. simpl.
    rewrite Hv, Z.eqb_refl. simpl.
    rewrite (update_where_version_hit _ _ _ row) by done. done.
  - intros v (row & Hk & He & Hv & [x Hx]) Hne.
    rewrite (get_live _ _ _ _ row x) by done. simpl.
    rewrite Hv. assert ((v =? cas) = false) as -> by (apply Z.eqb_neq; congruence).
    done.
  - intros Hk. by rewrite get_absent.
  - intros row Hk He. by rewrite (get_expired _ _ _ _ row).
Qed.

(** Whatever way [set] with [cas] fails, no row is created or altered, and
    the rows that have not expired stay. *)
Lemma set_cas_failure_keeps_rows (db db' : table) now now_get ns key value options cas e :
  options ≫= SetOptions.cas = Some cas →
  SQLiteKV.set db now now_get ns key value options = (Throw e, db') →
  db' = SQLiteKV.cleanupExpired db now_get ns key ∨ db' = db.
Proof.
  intros Hcas. unfold SQLiteKV.set. rewrite Hcas.
  destruct (SQLiteKV.serialize _ _) as [s|]; [|intros [= _ <-]; by right].
  unfold SQLiteKV.get.
  set (db1 := SQLiteKV.cleanupExpired db now_get ns key).
  destruct (db1 !! (ns, key)) as [row|] eqn:Hk; simpl.
  - destruct (SQLiteKV.parse_value row) as [x|]; simpl.
    + destruct (negb _) eqn:Hv; [intros [= _ <-]; by left|].
      apply negb_false_iff, Z.eqb_eq in Hv. simpl in Hv.
      rewrite (update_where_version_hit _ _ _ row) by done. done.
    + intros [= _ <-]; by left.
  - intros [= _ <-]; by left.
Qed.

(** Called on its own, one call after the other, [set] never reports a
    concurrent update: the row it has just read is the row it updates. *)
Lemma set_cas_no_race (db db' : table) now now_get ns key value options :
  SQLiteKV.set db now now_get ns key value options
  ≠ (Throw (CAS_failed concurrent_update), db').
Proof.
  unfold SQLiteKV.set. cbv zeta.
  destruct (SQLiteKV.serialize _ _) as [s|]; [|done].
  destruct (options ≫= SetOptions.cas) as [cas|]; [|done].
  unfold SQLiteKV.get.
  destruct (SQLiteKV.cleanupExpired db now_get ns key !! (ns, key)) as [row|] eqn:Hk;
    [|done].
  simpl. destruct (SQLiteKV.parse_value row) as [x|]; [|done]. simpl.
  destruct (negb _) eqn:Hv; [done|].
  apply negb_false_iff, Z.eqb_eq in Hv.
  by rewrite (update_where_version_hit _ _ _ row).
Qed.

End compare_and_set.

(** C1, as stated, fails on a row that has expired and not been swept: the
    write with [cas] is refused, and the stored row is gone afterwards. *)
Lemma set_cas_on_expired_row_removes_it :
  let row := KvRow.mk "1" application_json 1 (Some 1000) 0 in
  let db : table := {[ ("n", "k") := row ]} in
  let out := SQLiteKV.set (rt := text_runtime) db 5000 5000 "n" "k" "2"
               (Some (SetOptions.mk None None (Some 1))) in
  db !! ("n", "k") = Some row
  ∧ out.1 = Throw (CAS_failed does_not_exist)
  ∧ out.2 !! ("n", "k") = None.
Proof. vm_compute. done. Qed.

Lemma set_cas_outcomes_witness :
  let row := KvRow.mk "1" application_json 1 None 0 in
  let db : table := {[ ("n", "k") := row ]} in
  SQLiteKV.set (rt := text_runtime) db 10 10 "n" "k" "2"
    (Some (SetOptions.mk None None (Some 1)))
  = (Ok 2, <[("n", "k") := KvRow.mk "2" application_json 2 None 10]> db).
Proof.
  intros row db.
  refine (proj1 (set_cas_outcomes (rt := text_runtime) db 10 10 "n" "k" "2"
                   (Some (SetOptions.mk None None (Some 1))) 1 "2" _ _) 1 _ _).
  - reflexivity.
  - reflexivity.
  - exists row. split_and!; [reflexivity..|by eexists].
  - reflexivity.
Defined.

(** ** Unconditional writes *)

Section upsert.
Context `{rt : JsRuntime}.

Lemma set_unconditional (db : table) now now_get ns key value options serialized :
  options ≫= SetOptions.cas = None →
  SQLiteKV.serialize (default application_json (options ≫= SetOptions.contentType)) value
    = Some serialized →
  SQLiteKV.set db now now_get ns key value options
  = (Ok (SQLiteKV.upsert db ns key serialized
           (default application_json (options ≫= SetOptions.contentType))
           (SQLiteKV.expiresAt_of now (options ≫= SetOptions.ttl)) now).1,
     (SQLiteKV.upsert db ns key serialized
           (default application_json (options ≫= SetOptions.contentType))
           (SQLiteKV.expiresAt_of now (options ≫= SetOptions.ttl)) now).2).
Proof.
  intros Hcas Hser. unfold SQLiteKV.set. cbv zeta. by rewrite Hcas, Hser.
Qed.

Lemma set_each_versions (calls : list (Z * JsValue * option SetOptions.t)) :
  ∀ (db : table) ns key,
  Forall unconditional calls →
  (set_each db ns key calls).1
  = Ok <$> seqZ (match db !! (ns, key) with
                 | Some row => KvRow.version row + 1
                 | None => 1
                 end) (Z.of_nat (length calls)).
Proof.
  induction calls as [|[[now value] options] calls IH]; intros db ns key Hall.
  - done.
  - apply Forall_cons in Hall as [[Hcas [s Hs]] Hall]. simpl in Hcas, Hs.
    cbn [set_each]. rewrite (set_unconditional _ _ _ _ _ _ _ s) by done.
    unfold SQLiteKV.upsert at 1 2. cbn [fst snd].
    specialize (IH (<[(ns, key) := KvRow.mk s
        (default application_json (options ≫= SetOptions.contentType))
        (match db !! (ns, key) with Some row => KvRow.version row + 1 | None => 1 end)
        (SQLiteKV.expiresAt_of now (options ≫= SetOptions.ttl)) now]> db) ns key Hall).
    destruct (set_each _ ns key calls) as [rs db'] eqn:Hrest.
    cbn [fst snd] in IH |- *.
    rewrite IH, lookup_insert_eq. cbn [KvRow.version length].
    rewrite Nat2Z.inj_succ, (seqZ_cons _ (Z.succ _)) by lia.
    rewrite fmap_cons, Z.pred_succ, Z.add_1_r. done.
Qed.

(** C2, as the code has it: [set] without [cas], for a value that can be
    serialised.  When the table has no row for the key, the row is
    created at version 1.  When it has one, live or expired and not yet
    swept, the version goes up by exactly 1 and value, content type,
    expiry and update instant are replaced.  Hence successive such calls
    on a key that had no row return 1, 2, 3, ... in this order. *)
Theorem set_unconditional_versions (db : table) now now_get ns key value options serialized :
  options ≫= SetOptions.cas = None →
  SQLiteKV.serialize (default application_json (options ≫= SetOptions.contentType)) value
    = Some serialized →
  let contentType := default application_json (options ≫= SetOptions.contentType) in
  let expiresAt := SQLiteKV.expiresAt_of now (options ≫= SetOptions.ttl) in
  (db !! (ns, key) = None →
     SQLiteKV.set db now now_get ns key value options
     = (Ok 1, <[(ns, key) := KvRow.mk serialized contentType 1 expiresAt now]> db))
  ∧ (∀ row, db !! (ns, key) = Some row →
       SQLiteKV.set db now now_get ns key value options
       = (Ok (KvRow.version row + 1),
          <[(ns, key) := KvRow.mk serialized contentType (KvRow.version row + 1)
                           expiresAt now]> db))
  ∧ (∀ calls, db !! (ns, key) = None → Forall unconditional calls →
       (set_each db ns key calls).1 = Ok <$> seqZ 1 (Z.of_nat (length calls))).
Proof.
  intros Hcas Hser contentType expiresAt. subst contentType expiresAt.
  rewrite (set_unconditional _ _ _ _ _ _ _ serialized) by done.
  unfold SQLiteKV.upsert. cbn [fst snd]. split_and!.
  - by intros ->.
  - by intros row ->.
  - intros calls Hk Hall. rewrite set_each_versions by done. by rewrite Hk.
Qed.

End upsert.

(** C2, as stated, fails on a row that has expired and not been swept: the
    write does not start again at version 1. *)
Lemma set_on_expired_row_continues_versions :
  let row := KvRow.mk "1" application_json 1 (Some 1000) 0 in
  let db : table := {[ ("n", "k") := row ]} in
  expired 5000 row = true
  ∧ (SQLiteKV.set (rt := text_runtime) db 5000 5000 "n" "k" "2" None).1 = Ok 2.
Proof. vm_compute. done. Qed.

Lemma set_unconditional_versions_witness :
  SQLiteKV.set (rt := text_runtime) ∅ 10 10 "n" "k" "2" None
  = (Ok 1, <[("n", "k") := KvRow.mk "2" application_json 1 None 10]> ∅).
Proof.
  refine (proj1 (set_unconditional_versions (rt := text_runtime) ∅ 10 10 "n" "k" "2"
                   None "2" _ _) _); reflexivity.
Defined.

(** ** Deletion *)

Section deletion.
Context `{rt : JsRuntime}.

(** C5, as the code has it: [delete] on a key without a row (never
    written, or expired and already swept) returns false and leaves the
    table as it was; on a key with a row, live or expired and not yet
    swept, it returns true and removes the row, and [get] on that key
    then returns absent. *)
Theorem delete_outcomes (db : table) ns key :
  (db !! (ns, key) = None → SQLiteKV.delete db ns key = (false, db))
  ∧ (∀ row, db !! (ns, key) = Some row →
       SQLiteKV.delete db ns key = (true, base.delete (ns, key) db)
       ∧ ∀ now options,
           SQLiteKV.get (base.delete (ns, key) db) now ns key options
           = (Ok None, base.delete (ns, key) db)).
Proof.
  unfold SQLiteKV.delete. split.
  - by intros ->.
  - intros row ->. split; [done|]. intros now options.
    apply get_absent, lookup_delete_eq.
Qed.

End deletion.

(** C5, as stated, fails on a row that has expired and not been swept:
    [delete] returns true and removes it. *)
Lemma delete_on_expired_row_returns_true :
  let row := KvRow.mk "1" application_json 1 (Some 1000) 0 in
  let db : table := {[ ("n", "k") := row ]} in
  expired 5000 row = true
  ∧ db !! ("n", "k") = Some row
  ∧ SQLiteKV.delete db "n" "k" = (true, ∅).
Proof. vm_compute. done. Qed.

Lemma delete_outcomes_witness :
  let row := KvRow.mk "1" application_json 1 None 0 in
  let db : table := {[ ("n", "k") := row ]} in
  SQLiteKV.delete db "n" "k" = (true, base.delete ("n", "k") db).
Proof.
  intros row db.
  refine (proj1 (proj2 (delete_outcomes (rt := text_runtime) db "n" "k") row _)).
  reflexivity.
Defined.

(** ** Reading back what was written *)

Section round_trip.
Context `{rt : JsRuntime}.

Lemma set_success_row (db db' : table) now now_get ns key value options ver :
  SQLiteKV.set db now now_get ns key value options = (Ok ver, db') →
  ∃ serialized,
    SQLiteKV.serialize (default application_json (options ≫= SetOptions.contentType)) value
      = Some serialized
    ∧ db' !! (ns, key)
      = Some (KvRow.mk serialized
                (default application_json (options ≫= SetOptions.contentType))
                ver (SQLiteKV.expiresAt_of now (options ≫= SetOptions.ttl)) now).
Proof.
  unfold SQLiteKV.set. cbv zeta.
  destruct (SQLiteKV.serialize _ _) as [s|]; [|done].
  destruct (options ≫= SetOptions.cas) as [cas|].
  - destruct (SQLiteKV.get db now_get ns key None) as [[[r|]|e] db1] eqn:Hget; [|done..].
    destruct (negb _) eqn:Hv; [done|].
    apply negb_false_iff, Z.eqb_eq in Hv.
    unfold SQLiteKV.get in Hget.
    destruct (SQLiteKV.cleanupExpired db now_get ns key !! (ns, key)) as [row|] eqn:Hk;
      [|done].
    simpl in Hget. destruct (SQLiteKV.parse_value row); [|done].
    injection Hget as <- <-. simpl in Hv.
    rewrite (update_where_version_hit _ _ _ row) by done. simpl.
    intros [= <- <-]. exists s. by rewrite lookup_insert_eq.
  - unfold SQLiteKV.upsert. intros [= <- <-]. exists s. by rewrite lookup_insert_eq.
Qed.

(** C8: after a [set] that succeeded with the default content type, of a
    value that survives serialisation (its JSON text is well formed and
    parses back to [parsed]), a [get] made before the entry expires, with
    no content type filter or with the filter ['application/json'],
    returns [parsed], the value of [JSON.parse(JSON.stringify(value))],
    with the content type ['application/json'] in the metadata. *)
Theorem get_after_set_json (db db' : table) now now_get now' ns key value options
    ver text parsed filter :
  SQLiteKV.set db now now_get ns key value options = (Ok ver, db') →
  default application_json (options ≫= SetOptions.contentType) = "application/json" →
  JSON_stringify value = Some text →
  utf8_toString text = text →
  JSON_parse text = Some parsed →
  (∀ e, SQLiteKV.expiresAt_of now (options ≫= SetOptions.ttl) = Some e → now' < e) →
  filter = None ∨ filter = Some (GetOptions.mk (Some "application/json")) →
  SQLiteKV.get db' now' ns key filter
  = (Ok (Some {| value := parsed;
                 metadata := {| version := ver;
                                expiresAt := SQLiteKV.expiresAt_of now
                                               (options ≫= SetOptions.ttl);
                                updatedAt := now;
                                contentType := "application/json" |} |}),
     db').
Proof.
  intros Hset Hct Htext Hutf Hparse Hlive Hfilter.
  apply set_success_row in Hset as (s & Hs & Hrow).
  rewrite Hct in Hs, Hrow.
  unfold SQLiteKV.serialize in Hs. simpl in Hs. rewrite Htext in Hs.
  injection Hs as <-.
  rewrite (get_live_filtered db' now' ns key _ parsed filter Hrow); [done|..].
  - unfold expired. simpl.
    destruct (SQLiteKV.expiresAt_of _ _) as [e|]; [|done].
    apply Z.leb_gt. by apply Hlive.
  - by destruct Hfilter as [-> | ->].
  - unfold SQLiteKV.parse_value. simpl. by rewrite Hutf.
Qed.

End round_trip.

Lemma get_after_set_json_witness :
  let db' : table := {[ ("n", "k") := KvRow.mk "{}" application_json 1 (Some 1010) 10 ]} in
  SQLiteKV.get (rt := text_runtime) db' 1009 "n" "k" None
  = (Ok (Some {| value := "{}" : @JsValue text_runtime;
                 metadata := {| version := 1; expiresAt := Some 1010;
                                updatedAt := 10;
                                contentType := "application/json" |} |}),
     db').
Proof.
  intros db'.
  refine (get_after_set_json (rt := text_runtime) ∅ db' 10 10 1009 "n" "k" "{}"
            (Some (SetOptions.mk (Some 1) None None)) 1 "{}" "{}" None _ _ _ _ _ _ _).
  - reflexivity.
  - reflexivity.
  - reflexivity.
  - reflexivity.
  - reflexivity.
  - intros e [= <-]. lia.
  - by left.
Defined.

(** ** The expiry boundary *)

Section boundary.
Context `{rt : JsRuntime}.

Lemma exists_expired_true (db : table) ns now key row :
  db !! (ns, key) = Some row → expired now row = true →
  SQLiteKV.exists_expired db ns now = true.
Proof.
  intros Hk He. unfold SQLiteKV.exists_expired.
  apply existsb_exists. exists (ns, key, row). split.
  - apply list_elem_of_In, elem_of_map_to_list. done.
  - by rewrite !String.eqb_refl, He.
Qed.

Lemma exists_expired_false (db : table) ns now :
  SQLiteKV.exists_expired db ns now = false ↔
  ∀ key row, db !! (ns, key) = Some row → expired now row = false.
Proof.
  split.
  - intros Hno key row Hk. destruct (expired now row) eqn:He; [|done].
    by rewrite (exists_expired_true _ _ _ key row) in Hno.
  - intros Hall. apply not_true_is_false. intros Hex.
    apply existsb_exists in Hex as ([[n key] row] & Hin & Hex).
    apply list_elem_of_In, elem_of_map_to_list in Hin.
    apply andb_prop in Hex as [Hex He]. apply andb_prop in Hex as [Hn _].
    apply String.eqb_eq in Hn as ->.
    by rewrite (Hall key row) in He.
Qed.

Lemma cleanupAllExpired_count (db : table) now k row :
  db !! k = Some row → expired now row = true →
  (SQLiteKV.cleanupAllExpired db now).1
  = 1 + (SQLiteKV.cleanupAllExpired (base.delete k db) now).1.
Proof.
  intros Hk He. unfold SQLiteKV.cleanupAllExpired. cbn [fst].
  rewrite <- (insert_delete_id db k row) at 1 by done.
  rewrite map_filter_insert_True by done.
  rewrite map_size_insert_None; [lia|].
  rewrite map_lookup_filter_None. left. apply lookup_delete_eq.
Qed.

(** C9: the boundary is inclusive.  A row whose [expires_at] is exactly
    the instant of the call has expired: [get] returns absent and its
    lazy cleanup deletes the row; [cleanupAllExpired] counts the row and
    removes it; the filter of [list] sees it as expired.  Each of them
    compares with [expires_at <= now]. *)
Theorem expiry_boundary_inclusive (db : table) now ns key row options :
  db !! (ns, key) = Some row →
  KvRow.expires_at row = Some now →
  expired now row = true
  ∧ SQLiteKV.get db now ns key options = (Ok None, base.delete (ns, key) db)
  ∧ (SQLiteKV.cleanupAllExpired db now).1
    = 1 + (SQLiteKV.cleanupAllExpired (base.delete (ns, key) db) now).1
  ∧ (SQLiteKV.cleanupAllExpired db now).2 !! (ns, key) = None
  ∧ SQLiteKV.exists_expired db ns now = true.
Proof.
  intros Hk Hexp.
  assert (expired now row = true) as He.
  { unfold expired. rewrite Hexp. apply Z.leb_refl. }
  split_and!; [done|by apply (get_expired _ _ _ _ row)
              |by apply (cleanupAllExpired_count _ _ _ row)| |
               by apply (exists_expired_true _ _ _ key row)].
  unfold SQLiteKV.cleanupAllExpired. cbn [snd].
  apply map_lookup_filter_None. right. intros row' Hk'.
  rewrite Hk in Hk'. injection Hk' as <-. simpl. by rewrite He.
Qed.

End boundary.

Lemma expiry_boundary_inclusive_witness :
  let row := KvRow.mk "1" application_json 1 (Some 1000) 0 in
  let db : table := {[ ("n", "k") := row ]} in
  SQLiteKV.get (rt := text_runtime) db 1000 "n" "k" None
  = (Ok None, base.delete ("n", "k") db).
Proof.
  intros row db.
  refine (proj1 (proj2 (expiry_boundary_inclusive (rt := text_runtime) db 1000 "n" "k"
                          row None _ _))); reflexivity.
Defined.

(** ** The order of keys *)

Section key_order.

Lemma ltb_le_ne (a b : string) : String.ltb a b = true ↔ String.le a b ∧ a ≠ b.
Proof.
  unfold String.le, String.leb, String.ltb.
  destruct (String.compare a b) eqn:Hc; simpl.
  - apply String.compare_eq_iff in Hc as ->. split; [done|]. by intros [_ ?].
  - split; [|done]. intros _. split; [done|]. intros ->.
    pose proof (String.compare_antisym b b) as Hanti.
    rewrite Hc in Hanti. done.
  - split; [done|]. by intros [? _].
Qed.

Lemma ltb_irrefl (a : string) : String.ltb a a = false.
Proof. apply not_true_is_false. by intros [_ ?]%ltb_le_ne. Qed.

Lemma ltb_trans (a b c : string) :
  String.ltb a b = true → String.ltb b c = true → String.ltb a c = true.
Proof.
  rewrite !ltb_le_ne. intros [Hab Hne] [Hbc Hne']. split.
  - by etrans.
  - intros ->. apply Hne. by apply (anti_symm String.le).
Qed.

Lemma ltb_asym (a b : string) : String.ltb a b = true → String.ltb b a = false.
Proof.
  intros Hab. apply not_true_is_false. intros Hba.
  pose proof (ltb_trans _ _ _ Hab Hba) as Haa. by rewrite ltb_irrefl in Haa.
Qed.

Lemma ascending_of_sorted (l : list string) :
  Sorted String.le l → NoDup l → ascending l.
Proof.
  intros Hs%(Sorted_StronglySorted _). induction Hs as [|a l Hs IH Ha].
  - constructor.
  - intros [Hnotin Hnd]%NoDup_cons. constructor; [by apply IH|].
    apply Forall_forall. intros b Hb. apply ltb_le_ne. split.
    + by eapply Forall_forall in Ha.
    + by intros ->.
Qed.

Lemma ascending_sorted (l : list string) : ascending l → Sorted String.le l.
Proof.
  intros Hl. apply StronglySorted_Sorted.
  induction Hl as [|a l Hs IH Ha]; constructor; [done|].
  eapply Forall_impl; [exact Ha|]. intros b Hb. by apply ltb_le_ne in Hb as [? _].
Qed.

Lemma ascending_NoDup (l : list string) : ascending l → NoDup l.
Proof.
  induction 1 as [|a l Hs IH Ha]; constructor; [|done].
  intros Hin. eapply Forall_forall in Ha; [|done]. by rewrite ltb_irrefl in Ha.
Qed.

Lemma ascending_filter (P : string → Prop) `{∀ x, Decision (P x)} (l : list string) :
  ascending l → ascending (filter P l).
Proof.
  induction 1 as [|a l Hs IH Ha]; [constructor|].
  rewrite filter_cons. case_decide; [|done].
  constructor; [done|]. apply Forall_forall. intros b [_ Hb]%list_elem_of_filter.
  by eapply Forall_forall in Ha.
Qed.

(** Two ascending lists with the same elements are the same list. *)
Lemma ascending_ext (l1 l2 : list string) :
  ascending l1 → ascending l2 → (∀ k, k ∈ l1 ↔ k ∈ l2) → l1 = l2.
Proof.
  intros H1 H2 Hiff.
  apply (Sorted_unique String.le); [by apply ascending_sorted..|].
  apply NoDup_Permutation; [by apply ascending_NoDup..|done].
Qed.

Lemma ascending_app (l1 l2 : list string) :
  ascending (l1 ++ l2) →
  ascending l1 ∧ ascending l2
  ∧ ∀ a b, a ∈ l1 → b ∈ l2 → String.ltb a b = true.
Proof.
  intros H. apply StronglySorted_app in H as (H1 & H2 & H12). done.
Qed.

End key_order.

(** ** The query of [list] *)

Section query.
Context `{rt : JsRuntime}.

Lemma elem_of_ordered_keys (db : table) ns prefix startKey k :
  k ∈ SQLiteKV.ordered_keys db ns prefix startKey ↔
  ∃ row, db !! (ns, k) = Some row
         ∧ SQLiteKV.where_inner ns prefix startKey (ns, k, row) = true.
Proof.
  unfold SQLiteKV.ordered_keys. rewrite merge_sort_Permutation.
  rewrite list_elem_of_fmap. split.
  - intros ([[n k'] row] & -> & [Hw Hin]%list_elem_of_filter).
    apply elem_of_map_to_list in Hin. simpl.
    apply Is_true_true in Hw.
    assert (n = ns) as ->.
    { unfold SQLiteKV.where_inner in Hw.
      apply andb_prop in Hw as [Hw _]. apply andb_prop in Hw as [Hn _].
      by apply String.eqb_eq in Hn. }
    by exists row.
  - intros (row & Hk & Hw). exists (ns, k, row). split; [done|].
    apply list_elem_of_filter. split; [by apply Is_true_true|].
    by apply elem_of_map_to_list.
Qed.

Lemma ordered_keys_ascending (db : table) ns prefix startKey :
  ascending (SQLiteKV.ordered_keys db ns prefix startKey).
Proof.
  apply ascending_of_sorted.
  - apply Sorted_merge_sort, _.
  - unfold SQLiteKV.ordered_keys. rewrite merge_sort_Permutation.
    apply NoDup_fmap_2_strong.
    + intros [[n1 k1] r1] [[n2 k2] r2]
        [Hw1 Hin1]%list_elem_of_filter [Hw2 Hin2]%list_elem_of_filter Heq.
      simpl in Heq. subst k2.
      apply Is_true_true in Hw1, Hw2.
      assert (n1 = ns ∧ n2 = ns) as [-> ->].
      { unfold SQLiteKV.where_inner in Hw1, Hw2.
        apply andb_prop in Hw1 as [Hw1 _]. apply andb_prop in Hw1 as [Hn1 _].
        apply andb_prop in Hw2 as [Hw2 _]. apply andb_prop in Hw2 as [Hn2 _].
        split; by apply String.eqb_eq. }
      apply elem_of_map_to_list in Hin1, Hin2. congruence.
    + apply NoDup_filter, NoDup_map_to_list.
Qed.

(** The bound [key > ?] keeps the keys above [startKey] of the scan
    without bound. *)
Lemma ordered_keys_from (db : table) ns prefix startKey :
  truthy startKey = true →
  SQLiteKV.ordered_keys db ns prefix startKey
  = filter (λ k, String.ltb startKey k = true) (SQLiteKV.ordered_keys db ns prefix "").
Proof.
  intros Ht. apply ascending_ext.
  - apply ordered_keys_ascending.
  - apply ascending_filter, ordered_keys_ascending.
  - intros k. rewrite list_elem_of_filter, !elem_of_ordered_keys.
    unfold SQLiteKV.where_inner. rewrite Ht. simpl.
    split.
    + intros (row & Hk & Hw). apply andb_prop in Hw as [Hw Hlt].
      split; [done|]. exists row. split; [done|]. by rewrite Hw.
    + intros (Hlt & row & Hk & Hw). exists row. split; [done|].
      rewrite andb_true_r in Hw. by rewrite Hw, Hlt.
Qed.

Lemma select_rows_spec (db : table) now ns prefix startKey limit :
  SQLiteKV.select_rows db now ns prefix startKey limit
  = if SQLiteKV.exists_expired db ns now then []
    else SQLiteKV.sql_limit (limit + 1) (SQLiteKV.ordered_keys db ns prefix startKey).
Proof.
  unfold SQLiteKV.select_rows, SQLiteKV.select_inner.
  destruct (SQLiteKV.exists_expired db ns now); simpl.
  - induction (SQLiteKV.sql_limit _ _) as [|k l IH]; [done|].
    rewrite filter_cons. by case_decide.
  - induction (SQLiteKV.sql_limit _ _) as [|k l IH]; [done|].
    rewrite filter_cons. case_decide; [by f_equal|done].
Qed.

Lemma sql_limit_subseteq {A} (n : Z) (l : list A) : SQLiteKV.sql_limit n l ⊆ l.
Proof.
  unfold SQLiteKV.sql_limit. destruct (n <? 0); [done|].
  apply sublist_subseteq, sublist_take.
Qed.

Lemma slice0_subseteq {A} (l : list A) (n : Z) : SQLiteKV.slice0 l n ⊆ l.
Proof.
  unfold SQLiteKV.slice0. destruct (n <? 0); apply sublist_subseteq, sublist_take.
Qed.

(** Every row of the query is a key stored in the namespace. *)
Lemma select_rows_stored (db : table) now ns prefix startKey limit k :
  k ∈ SQLiteKV.select_rows db now ns prefix startKey limit →
  SQLiteKV.exists_expired db ns now = false
  ∧ ∃ row, db !! (ns, k) = Some row
           ∧ SQLiteKV.where_inner ns prefix startKey (ns, k, row) = true.
Proof.
  rewrite select_rows_spec.
  destruct (SQLiteKV.exists_expired db ns now); [by intros ?%elem_of_nil|].
  intros Hk%sql_limit_subseteq. split; [done|]. by apply elem_of_ordered_keys.
Qed.

(** One row that has expired and is still stored empties the query for
    its whole namespace. *)
Lemma select_rows_blank (db : table) now ns key row prefix startKey limit :
  db !! (ns, key) = Some row → expired now row = true →
  SQLiteKV.select_rows db now ns prefix startKey limit = [].
Proof.
  intros Hk He. rewrite select_rows_spec.
  by rewrite (exists_expired_true _ _ _ key row).
Qed.

End query.

(** ** The cursor codec *)

Section base64.

Lemma unbase64_digit (n : N) :
  (n < 64)%N →
  Base64.unbase64 (Base64.digit n) = Some n ∧ Base64.digit n ≠ "="%char.
Proof.
  intros Hn.
  assert (n ∈ N.of_nat <$> seq 0 64) as Hin.
  { apply list_elem_of_fmap. exists (N.to_nat n). split; [lia|].
    apply elem_of_seq. lia. }
  clear Hn. revert n Hin. apply Forall_forall.
  apply (bool_decide_unpack _). by vm_compute.
Qed.

Lemma sextets_digit (n : N) (s : string) :
  (n < 64)%N →
  Base64.sextets (String (Base64.digit n) s) = n :: Base64.sextets s.
Proof.
  intros [Hu Hne]%unbase64_digit. cbn [Base64.sextets].
  rewrite Hu. by apply Ascii.eqb_neq in Hne as ->.
Qed.

Lemma byte_bound (a : ascii) : (N_of_ascii a < 256)%N.
Proof. apply N_ascii_bounded. Qed.

Lemma ascii_of_N_eq (n : N) (a : ascii) : n = N_of_ascii a → ascii_of_N n = a.
Proof. intros ->. apply ascii_N_embedding. Qed.

Local Ltac bytes_arith :=
  zify; Z.to_euclidean_division_equations; lia.

Local Ltac same_bytes :=
  repeat match goal with
         | |- String _ _ = String _ _ => f_equal
         | |- ascii_of_N _ = _ => apply ascii_of_N_eq; bytes_arith
         end.

(** Decoding an encoded string gives it back. *)
Lemma decode_encode (s : string) : Base64.decode (Base64.encode s) = s.
Proof.
  unfold Base64.decode.
  remember (String.length s) as n eqn:Hlen.
  revert s Hlen. induction (lt_wf n) as [n _ IH]. intros s Hlen.
  destruct s as [|a [|b [|c rest]]].
  - done.
  - pose proof (byte_bound a).
    cbn [Base64.encode]. rewrite !sextets_digit by bytes_arith.
    cbn [Base64.sextets Ascii.eqb Bool.eqb]. cbn [Base64.bytes_of_sextets].
    by same_bytes.
  - pose proof (byte_bound a). pose proof (byte_bound b).
    cbn [Base64.encode]. rewrite !sextets_digit by bytes_arith.
    cbn [Base64.sextets Ascii.eqb Bool.eqb]. cbn [Base64.bytes_of_sextets].
    by same_bytes.
  - pose proof (byte_bound a). pose proof (byte_bound b). pose proof (byte_bound c).
    cbn [Base64.encode]. rewrite !sextets_digit by bytes_arith.
    cbn [Base64.bytes_of_sextets].
    rewrite (IH (String.length rest)); [|simpl in Hlen; lia|done].
    by same_bytes.
Qed.

Lemma encode_inj (a b : string) : Base64.encode a = Base64.encode b → a = b.
Proof. intros Heq. by rewrite <- (decode_encode a), Heq, decode_encode. Qed.

Lemma encode_empty (s : string) : Base64.encode s = "" → s = "".
Proof. intros Heq. by rewrite <- (decode_encode s), Heq. Qed.

End base64.

(** ** Pages *)

Section pages.
Context `{rt : JsRuntime}.

Lemma list_unfold (db : table) now ns options :
  let limit := default 100 (options ≫= ListOptions.limit) in
  let rows := SQLiteKV.select_rows db now ns (options ≫= ListOptions.prefix)
                (SQLiteKV.startKey_of (options ≫= ListOptions.cursor)) limit in
  SQLiteKV.list db now ns options
  = if Z.of_nat (length rows) >? limit
    then match last (SQLiteKV.slice0 rows limit) with
         | Some k => Ok {| keys := SQLiteKV.slice0 rows limit;
                           cursor := Some (Base64.encode k) |}
         | None => Throw TypeError
         end
    else Ok {| keys := rows; cursor := None |}.
Proof. intros limit rows. unfold SQLiteKV.list. by destruct (Z.gtb _ _). Qed.

(** What a page is made of: rows of the query, and for a cursor the
    encoding of the last key of the page. *)
Lemma list_page (db : table) now ns options res :
  SQLiteKV.list db now ns options = Ok res →
  keys res ⊆ SQLiteKV.select_rows db now ns (options ≫= ListOptions.prefix)
               (SQLiteKV.startKey_of (options ≫= ListOptions.cursor))
               (default 100 (options ≫= ListOptions.limit))
  ∧ ∀ c, cursor res = Some c →
         ∃ k, last (keys res) = Some k ∧ c = Base64.encode k.
Proof.
  rewrite list_unfold. cbv zeta. destruct (Z.gtb _ _).
  - destruct (last _) as [k|] eqn:Hlast; [|done].
    intros [= <-]. simpl. split; [apply slice0_subseteq|].
    intros c [= <-]. by exists k.
  - intros [= <-]. simpl. done.
Qed.

(** With a limit of at least 1, [list] returns: the first [limit] rows,
    and a cursor when the query gave more. *)
Lemma list_positive_limit (db : table) now ns options :
  let limit := default 100 (options ≫= ListOptions.limit) in
  let rows := SQLiteKV.select_rows db now ns (options ≫= ListOptions.prefix)
                (SQLiteKV.startKey_of (options ≫= ListOptions.cursor)) limit in
  0 < limit →
  SQLiteKV.list db now ns options
  = Ok {| keys := take (Z.to_nat limit) rows;
          cursor := if Z.of_nat (length rows) >? limit
                    then Base64.encode <$> last (take (Z.to_nat limit) rows)
                    else None |}.
Proof.
  intros limit rows Hpos. rewrite list_unfold. fold limit. fold rows.
  unfold SQLiteKV.slice0. assert ((limit <? 0) = false) as -> by lia.
  destruct (Z.gtb _ _) eqn:Hmore.
  - destruct (last (take (Z.to_nat limit) rows)) as [k|] eqn:Hlast; [done|].
    apply last_None in Hlast. apply (f_equal length) in Hlast.
    rewrite length_take in Hlast. simpl in Hlast. lia.
  - by rewrite take_ge by lia.
Qed.

Lemma ascending_take (n : nat) (l : list string) : ascending l → ascending (take n l).
Proof.
  intros Hl. rewrite <- (take_drop n l) in Hl. by apply ascending_app in Hl as [? _].
Qed.

Lemma select_rows_ascending (db : table) now ns prefix startKey limit :
  ascending (SQLiteKV.select_rows db now ns prefix startKey limit).
Proof.
  rewrite select_rows_spec. destruct (SQLiteKV.exists_expired db ns now).
  - constructor.
  - unfold SQLiteKV.sql_limit. destruct (Z.ltb _ _).
    + apply ordered_keys_ascending.
    + apply ascending_take, ordered_keys_ascending.
Qed.

(** An entry that has expired is not handed out.  [get] returns absent.
    [list] on its namespace, while the row is stored, gives the key in no
    row, no page and no cursor, and returns when the limit is not
    negative; it does so by giving no row at all ([select_rows_blank]).
    Once the row has been deleted the key is in no page and no cursor
    either. *)
Lemma expired_entry_not_read (db : table) now ns key row filter options :
  db !! (ns, key) = Some row →
  expired now row = true →
  SQLiteKV.get db now ns key filter = (Ok None, base.delete (ns, key) db)
  ∧ (∀ prefix startKey limit,
       key ∉ SQLiteKV.select_rows db now ns prefix startKey limit)
  ∧ (∀ res, SQLiteKV.list db now ns options = Ok res →
            (key ∉ keys res) ∧ cursor res ≠ Some (Base64.encode key))
  ∧ (0 ≤ default 100 (options ≫= ListOptions.limit) →
     ∃ res, SQLiteKV.list db now ns options = Ok res)
  ∧ (∀ res, SQLiteKV.list (base.delete (ns, key) db) now ns options = Ok res →
            (key ∉ keys res) ∧ cursor res ≠ Some (Base64.encode key)).
Proof.
  intros Hk He.
  assert (∀ prefix startKey limit,
            SQLiteKV.select_rows db now ns prefix startKey limit = []) as Hblank.
  { intros. by apply (select_rows_blank _ _ _ key row). }
  split_and!.
  - by apply (get_expired _ _ _ _ row).
  - intros prefix startKey limit. rewrite Hblank. apply not_elem_of_nil.
  - intros res [Hsub Hcur]%list_page. rewrite Hblank in Hsub.
    assert (key ∉ keys res) as Hnot.
    { intros Hin. by apply Hsub, elem_of_nil in Hin. }
    split; [done|]. intros Hc. apply Hcur in Hc as (k & Hlast & ->%encode_inj).
    by apply last_Some_elem_of in Hlast.
  - intros Hlimit. rewrite list_unfold. cbv zeta. rewrite Hblank.
    change (Z.of_nat (length (@nil string))) with 0.
    assert ((0 >? default 100 (options ≫= ListOptions.limit)) = false) as -> by lia.
    by eexists.
  - intros res [Hsub Hcur]%list_page.
    assert (key ∉ keys res) as Hnot.
    { intros Hin. apply Hsub, select_rows_stored in Hin as (_ & row' & Hk' & _).
      by rewrite lookup_delete_eq in Hk'. }
    split; [done|]. intros Hc. apply Hcur in Hc as (k & Hlast & ->%encode_inj).
    by apply last_Some_elem_of in Hlast.
Qed.





End pages.





(** C6 on a prefix with [_]: the key ["abc"] does not start with ["a_"],
    and [list] returns it; the [_] of the prefix is a wildcard of [LIKE]. *)
Lemma list_prefix_underscore_is_wildcard :
  let row := KvRow.mk "1" application_json 1 None 0 in
  let db : table := {[ ("n", "a_c") := row; ("n", "abc") := row ]} in
  SQLiteKV.list (rt := text_runtime) db 0 "n"
    (Some (ListOptions.mk None None (Some "a_")))
  = Ok {| keys := ["a_c"; "abc"]; cursor := None |}
  ∧ String.prefix "a_" "abc" = false.
Proof. by vm_compute. Qed.

(** The letters of the prefix match in either case. *)
Lemma list_prefix_ignores_case :
  let row := KvRow.mk "1" application_json 1 None 0 in
  let db : table := {[ ("n", "Apple") := row; ("n", "avocado") := row ]} in
  SQLiteKV.list (rt := text_runtime) db 0 "n"
    (Some (ListOptions.mk None None (Some "a")))
  = Ok {| keys := ["Apple"; "avocado"]; cursor := None |}
  ∧ String.prefix "a" "Apple" = false.
Proof. by vm_compute. Qed.

(** C4 on a namespace that still stores an expired row: with the keys
    ["a"] and ["c"] live and ["b"] expired, the first page is empty and has
    no cursor, so the caller ends with no key at all. *)
Lemma paginate_stops_on_expired_row :
  let live := KvRow.mk "1" application_json 1 None 0 in
  let old := KvRow.mk "1" application_json 1 (Some 1000) 0 in
  let db : table := {[ ("n", "a") := live; ("n", "b") := old; ("n", "c") := live ]} in
  live_key db 5000 "n" "a"
  ∧ live_key db 5000 "n" "c"
  ∧ SQLiteKV.list (rt := text_runtime) db 5000 "n"
      (Some (ListOptions.mk (Some 1) None None))
    = Ok {| keys := []; cursor := None |}
  ∧ paginate (rt := text_runtime) 3 db 5000 "n" (Some 1) None None = Done [[]].
Proof.
  split_and!.
  - eexists. split; [by vm_compute|done].
  - eexists. split; [by vm_compute|done].
  - by vm_compute.
  - by vm_compute.
Qed.

(** ** Pagination where it works

    In a namespace that stores no expired row and no empty key, whose keys
    are well-formed text, the pages fetched by following the cursors are
    the keys of the namespace, each once, in ascending order. *)

Section pagination.
Context `{rt : JsRuntime}.

Lemma filter_none {A} (P : A → Prop) `{∀ x, Decision (P x)} (l : list A) :
  (∀ x, x ∈ l → ¬ P x) → filter P l = [].
Proof.
  induction l as [|a l IH]; intros Hl; [done|].
  rewrite filter_cons. case_decide as Ha.
  - exfalso. by apply (Hl a); [left|].
  - apply IH. intros x Hx. apply Hl. by right.
Qed.

Lemma filter_all {A} (P : A → Prop) `{∀ x, Decision (P x)} (l : list A) :
  (∀ x, x ∈ l → P x) → filter P l = l.
Proof.
  induction l as [|a l IH]; intros Hl; [done|].
  rewrite filter_cons. case_decide as Ha.
  - f_equal. apply IH. intros x Hx. apply Hl. by right.
  - exfalso. apply Ha, Hl. by left.
Qed.

(** In an ascending list, the keys above the last key of a prefix are the
    rest of the list. *)
Lemma filter_above_last (seen rest : list string) (k : string) :
  ascending (seen ++ rest) → last seen = Some k →
  filter (λ x, String.ltb k x = true) (seen ++ rest) = rest.
Proof.
  intros Hasc [seen' ->]%last_Some.
  apply ascending_app in Hasc as (Hseen & _ & Hlt).
  apply ascending_app in Hseen as (_ & _ & Hlt').
  rewrite filter_app, filter_none, filter_all; [done| |].
  - intros x Hx. apply Hlt; [|done]. apply elem_of_app. right. by left.
  - intros x [Hx| ->%list_elem_of_singleton]%elem_of_app.
    + rewrite ltb_asym; [done|]. apply Hlt'; [done|by left].
    + by rewrite ltb_irrefl.
Qed.

(** The cursor made from a key leads back to that key. *)
Lemma startKey_of_encode (k : string) :
  truthy k = true → utf8_toString k = k →
  SQLiteKV.startKey_of (Some (Base64.encode k)) = k.
Proof.
  intros Ht Hutf. unfold SQLiteKV.startKey_of.
  assert (truthy (Base64.encode k) = true) as ->.
  { unfold truthy in *. apply negb_true_iff, String.eqb_neq.
    intros ->%encode_empty. done. }
  by rewrite decode_encode.
Qed.

Lemma paginate_from (fuel : nat) :
  ∀ (db : table) now ns limit prefix seen rest from,
  SQLiteKV.exists_expired db ns now = false →
  0 < limit →
  SQLiteKV.ordered_keys db ns prefix "" = seen ++ rest →
  (∀ k, k ∈ seen → truthy k = true ∧ utf8_toString k = k) →
  (∀ k, k ∈ rest → truthy k = true ∧ utf8_toString k = k) →
  at_position seen from →
  (length rest < fuel)%nat →
  ∃ pages,
    paginate fuel db now ns (Some limit) prefix from = Done pages
    ∧ concat pages = rest
    ∧ Forall (λ page : list string, (length page ≤ Z.to_nat limit)%nat) pages.
Proof.
  induction fuel as [|fuel IH];
    intros db now ns limit prefix seen rest from Hno Hpos Hall Hseen Hrest Hat Hfuel;
    [lia|].
  assert (SQLiteKV.ordered_keys db ns prefix (SQLiteKV.startKey_of from) = rest)
    as Hkeys.
  { destruct Hat as [[-> ->]|(k & Hlast & ->)]; [done|].
    destruct (Hseen k) as [Ht Hutf]; [by eapply last_Some_elem_of|].
    rewrite startKey_of_encode, ordered_keys_from, Hall by done.
    apply filter_above_last; [|done]. rewrite <- Hall. apply ordered_keys_ascending. }
  cbn [paginate]. rewrite list_positive_limit by done. cbn [default mbind option_bind
    ListOptions.limit ListOptions.prefix ListOptions.cursor keys cursor].
  rewrite select_rows_spec, Hno, Hkeys. unfold SQLiteKV.sql_limit, id.
  assert ((limit + 1 <? 0) = false) as -> by lia.
  rewrite take_take, Nat.min_l by lia.
  destruct (Z.gtb _ _) eqn:Hmore; rewrite Z.gtb_ltb in Hmore.
  - apply Z.ltb_lt in Hmore. rewrite length_take in Hmore.
    assert (Z.to_nat limit < length rest)%nat as Hlong by lia.
    destruct (last (take (Z.to_nat limit) rest)) as [k'|] eqn:Hlast.
    2:{ apply last_None in Hlast. apply (f_equal length) in Hlast.
        rewrite length_take in Hlast. simpl in Hlast. lia. }
    cbn [fmap option_fmap option_map].
    destruct (IH db now ns limit prefix (seen ++ take (Z.to_nat limit) rest)
                (drop (Z.to_nat limit) rest) (Some (Base64.encode k')))
      as (pages & Hpages & Hconcat & Hlen).
    + done.
    + done.
    + by rewrite <- app_assoc, take_drop.
    + intros k [Hk|Hk%subseteq_take]%elem_of_app; auto.
    + intros k Hk%subseteq_drop. auto.
    + right. exists k'. split; [|done]. by rewrite last_app, Hlast.
    + rewrite length_drop. lia.
    + rewrite Hpages. eexists. split; [done|]. split.
      * by rewrite concat_cons, Hconcat, take_drop.
      * constructor; [|done]. rewrite length_take. lia.
  - apply Z.ltb_ge in Hmore. rewrite length_take in Hmore.
    rewrite take_ge by lia. eexists. split; [done|]. split.
    + simpl. by rewrite app_nil_r.
    + constructor; [lia|constructor].
Qed.

(** Pagination is complete where nothing has expired.  In a namespace that
    stores no expired row and no empty key, whose keys are well-formed
    text, a caller that starts without cursor and follows the cursors, with
    any limit of at least 1, ends; the pages it has received, put end to
    end, are the keys that pass the prefix, each once, in ascending order,
    and no page is longer than the limit. *)
Lemma paginate_complete (db : table) now ns limit prefix fuel :
  SQLiteKV.exists_expired db ns now = false →
  0 < limit →
  (∀ k, k ∈ SQLiteKV.ordered_keys db ns prefix "" →
        truthy k = true ∧ utf8_toString k = k) →
  (length (SQLiteKV.ordered_keys db ns prefix "") < fuel)%nat →
  ∃ pages,
    paginate fuel db now ns (Some limit) prefix None = Done pages
    ∧ concat pages = SQLiteKV.ordered_keys db ns prefix ""
    ∧ ascending (concat pages)
    ∧ Forall (λ page : list string, (length page ≤ Z.to_nat limit)%nat) pages.
Proof.
  intros Hno Hpos Hkeys Hfuel.
  destruct (paginate_from fuel db now ns limit prefix []
              (SQLiteKV.ordered_keys db ns prefix "") None)
    as (pages & Hpages & Hconcat & Hlen); try done.
  - intros k Hk. by apply elem_of_nil in Hk.
  - by left.
  - exists pages. split_and!; [done..| |done].
    rewrite Hconcat. apply ordered_keys_ascending.
Qed.

(** Without prefix, and with no expired row stored, the keys of the scan
    are the live keys of the namespace. *)
Lemma ordered_keys_live (db : table) now ns k :
  SQLiteKV.exists_expired db ns now = false →
  k ∈ SQLiteKV.ordered_keys db ns None "" ↔ live_key db now ns k.
Proof.
  intros Hno. rewrite elem_of_ordered_keys. unfold live_key. split.
  - intros (row & Hk & _). exists row. split; [done|].
    by eapply exists_expired_false.
  - intros (row & Hk & _). exists row. split; [done|].
    unfold SQLiteKV.where_inner. by rewrite String.eqb_refl.
Qed.

End pagination.

(** A key that is the empty string gives the empty cursor, which [list]
    takes for no cursor: the caller is sent back to the first page. *)
Lemma paginate_loops_on_empty_key (fuel : nat) :
  let row := KvRow.mk "1" application_json 1 None 0 in
  let db : table := {[ ("n", "") := row; ("n", "a") := row ]} in
  paginate (rt := text_runtime) fuel db 0 "n" (Some 1) None None = OutOfFuel
  ∧ paginate (rt := text_runtime) fuel db 0 "n" (Some 1) None (Some "") = OutOfFuel.
Proof.
  intros row db. induction fuel as [|fuel [IH1 IH2]]; [done|].
  cbn [paginate].
  assert (SQLiteKV.list (rt := text_runtime) db 0 "n"
            (Some (ListOptions.mk (Some 1) None None))
          = Ok {| keys := [""]; cursor := Some "" |}) as -> by by vm_compute.
  assert (SQLiteKV.list (rt := text_runtime) db 0 "n"
            (Some (ListOptions.mk (Some 1) (Some "") None))
          = Ok {| keys := [""]; cursor := Some "" |}) as -> by by vm_compute.
  cbn [cursor]. by rewrite IH2.
Qed.

(** C3 on a namespace that still stores an expired row: with ["a"] expired
    and ["b"], ["c"] live, the expired key is one of the [limit + 1] rows
    that [LIMIT] lets through, and the page of [list] comes back empty and
    without cursor; once the expired row has been deleted, the same call
    returns ["b"] and a cursor.  What [list] returns depends on whether the
    expired row has been deleted. *)
Lemma list_counts_expired_row :
  let live := KvRow.mk "1" application_json 1 None 0 in
  let old := KvRow.mk "1" application_json 1 (Some 1000) 0 in
  let db : table := {[ ("n", "a") := old; ("n", "b") := live; ("n", "c") := live ]} in
  expired 5000 old = true
  ∧ SQLiteKV.select_inner db "n" None "" 1 = ["a"; "b"]
  ∧ SQLiteKV.list (rt := text_runtime) db 5000 "n"
      (Some (ListOptions.mk (Some 1) None None))
    = Ok {| keys := []; cursor := None |}
  ∧ SQLiteKV.list (rt := text_runtime) (base.delete ("n", "a") db) 5000 "n"
      (Some (ListOptions.mk (Some 1) None None))
    = Ok {| keys := ["b"]; cursor := Some "Yg==" |}.
Proof. by vm_compute. Qed.

(** ** What a call leaves alone *)

Section frames.
Context `{rt : JsRuntime}.

Lemma cleanupExpired_other (db : table) now ns key k :
  k ≠ (ns, key) → SQLiteKV.cleanupExpired db now ns key !! k = db !! k.
Proof.
  intros Hne. unfold SQLiteKV.cleanupExpired.
  destruct (db !! (ns, key)) as [row|]; [|done].
  destruct (expired now row); [|done]. by rewrite lookup_delete_ne.
Qed.

Lemma get_table (db : table) now ns key options :
  (SQLiteKV.get db now ns key options).2 = SQLiteKV.cleanupExpired db now ns key.
Proof.
  unfold SQLiteKV.get.
  destruct (SQLiteKV.cleanupExpired db now ns key !! (ns, key)) as [row|]; [|done].
  destruct (SQLiteKV.contentType_mismatch options row); [done|].
  by destruct (SQLiteKV.parse_value row).
Qed.

(** [get] writes nothing but the removal of the row it was asked for, and
    that only when the row has expired: whatever it returns, every row that
    has not expired and every row of another key is in the table
    afterwards, unchanged, and no row is added. *)
Theorem get_keeps_rows (db db' : table) now ns key options r :
  SQLiteKV.get db now ns key options = (r, db') →
  (∀ k row, db !! k = Some row → k ≠ (ns, key) ∨ expired now row = false →
            db' !! k = Some row)
  ∧ (∀ k row, db' !! k = Some row → db !! k = Some row).
Proof.
  intros Hget. pose proof (get_table db now ns key options) as Htable.
  rewrite Hget in Htable. simpl in Htable. subst db'. split.
  - intros k row Hk [Hne|He].
    + by rewrite cleanupExpired_other.
    + destruct (decide (k = (ns, key))) as [->|Hne].
      * by rewrite (cleanupExpired_live _ _ _ _ row).
      * by rewrite cleanupExpired_other.
  - intros k row. unfold SQLiteKV.cleanupExpired.
    destruct (db !! (ns, key)) as [row0|] eqn:Hk0; [|done].
    destruct (expired now row0); [|done].
    by intros [_ ?]%lookup_delete_Some.
Qed.

Lemma set_frame (db : table) now now_get ns key value options k :
  k ≠ (ns, key) →
  (SQLiteKV.set db now now_get ns key value options).2 !! k = db !! k.
Proof.
  intros Hne. unfold SQLiteKV.set. cbv zeta.
  destruct (SQLiteKV.serialize _ _) as [s|]; [|done].
  destruct (options ≫= SetOptions.cas) as [cas|].
  - pose proof (get_table db now_get ns key None) as Htable.
    destruct (SQLiteKV.get db now_get ns key None) as [[[cur|]|e] db1];
      simpl in Htable; subst db1; cbn [snd]; try by apply cleanupExpired_other.
    destruct (negb _); [by apply cleanupExpired_other|].
    unfold SQLiteKV.update_where_version.
    destruct (SQLiteKV.cleanupExpired db now_get ns key !! (ns, key)) as [row|];
      [|by apply cleanupExpired_other].
    destruct (KvRow.version row =? cas); cbn [snd Z.eqb].
    + rewrite lookup_insert_ne by done. by apply cleanupExpired_other.
    + by apply cleanupExpired_other.
  - unfold SQLiteKV.upsert. cbn [snd]. by rewrite lookup_insert_ne.
Qed.

(** [set] touches one key: whether it succeeds or throws, the row of every
    other key, in this namespace or another, is what it was. *)
Theorem set_keeps_other_keys (db db' : table) now now_get ns key value options r k :
  SQLiteKV.set db now now_get ns key value options = (r, db') →
  k ≠ (ns, key) →
  db' !! k = db !! k.
Proof.
  intros Hset Hne.
  pose proof (set_frame db now now_get ns key value options k Hne) as Hframe.
  by rewrite Hset in Hframe.
Qed.

(** A [set] that throws has written nothing: the table is the one before,
    but for the row of the key itself when that row had expired and the
    [get] of the CAS branch removed it. *)
Theorem set_failure_writes_nothing (db db' : table) now now_get ns key value options e :
  SQLiteKV.set db now now_get ns key value options = (Throw e, db') →
  db' = db
  ∨ (∃ row, db !! (ns, key) = Some row ∧ expired now_get row = true
            ∧ db' = base.delete (ns, key) db).
Proof.
  unfold SQLiteKV.set. cbv zeta.
  destruct (SQLiteKV.serialize _ _) as [s|]; [|intros [= _ <-]; by left].
  destruct (options ≫= SetOptions.cas) as [cas|]; [|done].
  assert (SQLiteKV.cleanupExpired db now_get ns key = db
          ∨ ∃ row, db !! (ns, key) = Some row ∧ expired now_get row = true
                   ∧ SQLiteKV.cleanupExpired db now_get ns key
                     = base.delete (ns, key) db) as Hclean.
  { unfold SQLiteKV.cleanupExpired.
    destruct (db !! (ns, key)) as [row|]; [|by left].
    destruct (expired now_get row) eqn:He; [|by left]. right. by exists row. }
  unfold SQLiteKV.get.
  destruct (SQLiteKV.cleanupExpired db now_get ns key !! (ns, key)) as [row|] eqn:Hk;
    simpl.
  - destruct (SQLiteKV.parse_value row) as [x|]; simpl.
    + destruct (negb _) eqn:Hv; [by intros [= _ <-]|].
      apply negb_false_iff, Z.eqb_eq in Hv. simpl in Hv.
      by rewrite (update_where_version_hit _ _ _ row).
    + by intros [= _ <-].
  - by intros [= _ <-].
Qed.

End frames.

Lemma get_keeps_rows_witness :
  let row := KvRow.mk "1" application_json 1 (Some 1000) 0 in
  let other := KvRow.mk "2" application_json 3 (Some 1000) 0 in
  let db : table := {[ ("n", "k") := row; ("n", "j") := other ]} in
  (SQLiteKV.get (rt := text_runtime) db 5000 "n" "k" None).2 !! ("n", "j") = Some other.
Proof.
  intros row other db.
  refine (proj1 (get_keeps_rows (rt := text_runtime) db _ 5000 "n" "k" None _ _)
            ("n", "j") other _ _).
  - apply surjective_pairing.
  - reflexivity.
  - left. discriminate.
Defined.

Lemma set_keeps_other_keys_witness :
  let other := KvRow.mk "2" application_json 3 None 0 in
  let db : table := {[ ("n", "j") := other ]} in
  (SQLiteKV.set (rt := text_runtime) db 10 10 "n" "k" "1" None).2 !! ("n", "j")
  = db !! ("n", "j").
Proof.
  intros other db.
  refine (set_keeps_other_keys (rt := text_runtime) db _ 10 10 "n" "k" "1" None _
            ("n", "j") _ _).
  - apply surjective_pairing.
  - discriminate.
Defined.

Lemma set_failure_writes_nothing_witness :
  let row := KvRow.mk "1" application_json 4 None 0 in
  let db : table := {[ ("n", "k") := row ]} in
  (SQLiteKV.set (rt := text_runtime) db 10 10 "n" "k" "2"
     (Some (SetOptions.mk None None (Some 3)))).2 = db
  ∨ ∃ row, db !! ("n", "k") = Some row ∧ expired 10 row = true
           ∧ (SQLiteKV.set (rt := text_runtime) db 10 10 "n" "k" "2"
                (Some (SetOptions.mk None None (Some 3)))).2
             = base.delete ("n", "k") db.
Proof.
  intros row db.
  refine (set_failure_writes_nothing (rt := text_runtime) db _ 10 10 "n" "k" "2"
            (Some (SetOptions.mk None None (Some 3)))
            (CAS_failed version_mismatch) _).
  by vm_compute.
Defined.

(** ** The life of an entry *)

Section lifetime.
Context `{rt : JsRuntime}.

(** An entry written with a time to live of [t] seconds, [t] not zero, can
    be read strictly before [now + 1000 t] milliseconds and not from then
    on: a [get] made earlier returns it at the version [set] returned, a
    [get] made at that instant or later returns absent and removes the row.
    With a negative [t] the entry can never be read after the write. *)
Theorem entry_read_until_expiry (db db' : table) now now_get now' ns key value options
    ver t :
  SQLiteKV.set db now now_get ns key value options = (Ok ver, db') →
  options ≫= SetOptions.ttl = Some t →
  t ≠ 0 →
  (∀ row, db' !! (ns, key) = Some row → is_Some (SQLiteKV.parse_value row)) →
  (now' < now + t * 1000 →
     ∃ r, SQLiteKV.get db' now' ns key None = (Ok (Some r), db')
          ∧ version (metadata r) = ver
          ∧ expiresAt (metadata r) = Some (now + t * 1000))
  ∧ (now + t * 1000 ≤ now' →
     SQLiteKV.get db' now' ns key None = (Ok None, base.delete (ns, key) db')).
Proof.
  intros Hset Httl Ht Hread.
  apply set_success_row in Hset as (s & _ & Hrow).
  rewrite Httl in Hrow. unfold SQLiteKV.expiresAt_of in Hrow.
  apply Z.eqb_neq in Ht. rewrite Ht in Hrow.
  destruct (Hread _ Hrow) as [x Hx]. split.
  - intros Hbefore. eexists. split.
    + apply (get_live _ _ _ _ _ x Hrow); [|done].
      unfold expired. simpl. lia.
    + done.
  - intros Hafter. apply (get_expired _ _ _ _ _ _ Hrow).
    unfold expired. simpl. lia.
Qed.

(** A time to live of zero, like none at all, means no expiry: the entry is
    returned by [get] at every instant. *)
Theorem entry_without_ttl_stays (db db' : table) now now_get now' ns key value options
    ver :
  SQLiteKV.set db now now_get ns key value options = (Ok ver, db') →
  options ≫= SetOptions.ttl = None ∨ options ≫= SetOptions.ttl = Some 0 →
  (∀ row, db' !! (ns, key) = Some row → is_Some (SQLiteKV.parse_value row)) →
  ∃ r, SQLiteKV.get db' now' ns key None = (Ok (Some r), db')
       ∧ version (metadata r) = ver
       ∧ expiresAt (metadata r) = None.
Proof.
  intros Hset Httl Hread.
  apply set_success_row in Hset as (s & _ & Hrow).
  assert (SQLiteKV.expiresAt_of now (options ≫= SetOptions.ttl) = None) as Hnone
    by by destruct Httl as [-> | ->].
  rewrite Hnone in Hrow. destruct (Hread _ Hrow) as [x Hx].
  eexists. split; [by apply (get_live _ _ _ _ _ x Hrow)|done].
Qed.

(** A content type filter that does not match gives absent, and nothing
    else happens: the value is not parsed and the row stays, so that a
    [get] without filter still returns it. *)
Theorem get_other_contentType (db : table) now ns key row ct :
  db !! (ns, key) = Some row →
  expired now row = false →
  ct ≠ "" →
  ct ≠ KvRow.content_type row →
  SQLiteKV.get db now ns key (Some (GetOptions.mk (Some ct))) = (Ok None, db).
Proof.
  intros Hk He Hct Hne. unfold SQLiteKV.get.
  rewrite (cleanupExpired_live _ _ _ _ row), Hk by done.
  unfold SQLiteKV.contentType_mismatch, truthy. simpl.
  apply String.eqb_neq in Hct as ->.
  assert (KvRow.content_type row ≠ ct) as ->%String.eqb_neq by done.
  done.
Qed.

(** A value written with a content type other than ['application/json'] is
    stored as the buffer it is and read back as that buffer, whatever its
    bytes: [get] does not parse it and cannot throw. *)
Theorem get_after_set_buffer (db db' : table) now now_get now' ns key value options
    ver ct :
  SQLiteKV.set db now now_get ns key value options = (Ok ver, db') →
  options ≫= SetOptions.contentType = Some ct →
  ct ≠ "application/json" →
  (∀ e, SQLiteKV.expiresAt_of now (options ≫= SetOptions.ttl) = Some e → now' < e) →
  SQLiteKV.get db' now' ns key None
  = (Ok (Some {| value := of_Buffer (as_Buffer value);
                 metadata := {| version := ver;
                                expiresAt := SQLiteKV.expiresAt_of now
                                               (options ≫= SetOptions.ttl);
                                updatedAt := now;
                                contentType := ct |} |}),
     db').
Proof.
  intros Hset Hct Hne Hlive.
  apply set_success_row in Hset as (s & Hs & Hrow).
  rewrite Hct in Hs, Hrow. simpl in Hs, Hrow.
  unfold SQLiteKV.serialize in Hs.
  assert (String.eqb ct application_json = false) as Hjson by by apply String.eqb_neq.
  rewrite Hjson in Hs. injection Hs as <-.
  rewrite (get_live db' now' ns key _ (of_Buffer (as_Buffer value)) Hrow); [done| |].
  - unfold expired. simpl.
    destruct (SQLiteKV.expiresAt_of _ _) as [e|]; [|done].
    apply Z.leb_gt. by apply Hlive.
  - unfold SQLiteKV.parse_value. simpl. by rewrite Hjson.
Qed.

(** After [delete], the key starts again: the next [set] without [cas]
    returns version 1, whatever version the deleted row had reached. *)
Theorem set_after_delete_restarts (db : table) now now_get ns key value options serialized :
  options ≫= SetOptions.cas = None →
  SQLiteKV.serialize (default application_json (options ≫= SetOptions.contentType)) value
    = Some serialized →
  (SQLiteKV.set (SQLiteKV.delete db ns key).2 now now_get ns key value options).1 = Ok 1.
Proof.
  intros Hcas Hser.
  rewrite (set_unconditional _ _ _ _ _ _ _ serialized) by done.
  unfold SQLiteKV.upsert, SQLiteKV.delete. cbn [fst].
  destruct (db !! (ns, key)) eqn:Hk; cbn [snd].
  - by rewrite lookup_delete_eq.
  - by rewrite Hk.
Qed.

(** Two writers that read the same version: the write of the first goes
    through, and the second, carrying the version both have read, is
    refused with "version mismatch" and leaves the write of the first in
    the table. *)
Theorem second_cas_writer_loses (db db1 : table) ns key v
    now1 get1 value1 options1 now2 get2 value2 options2 serialized2 :
  options1 ≫= SetOptions.cas = Some v →
  options2 ≫= SetOptions.cas = Some v →
  SQLiteKV.set db now1 get1 ns key value1 options1 = (Ok (v + 1), db1) →
  SQLiteKV.serialize (default application_json (options2 ≫= SetOptions.contentType)) value2
    = Some serialized2 →
  (∀ row, db1 !! (ns, key) = Some row →
          expired get2 row = false ∧ is_Some (SQLiteKV.parse_value row)) →
  SQLiteKV.set db1 now2 get2 ns key value2 options2
  = (Throw (CAS_failed version_mismatch), db1).
Proof.
  intros Hcas1 Hcas2 Hset1 Hser2 Hrow1.
  apply set_success_row in Hset1 as (s1 & _ & Hk1).
  destruct (Hrow1 _ Hk1) as [He Hread].
  unfold SQLiteKV.set. cbv zeta. rewrite Hcas2, Hser2.
  destruct Hread as [x Hx].
  rewrite (get_live _ _ _ _ _ x Hk1) by done. simpl.
  assert ((v + 1 =? v) = false) as -> by lia. done.
Qed.

End lifetime.

Lemma text_runtime_reads (row : KvRow.t) :
  is_Some (SQLiteKV.parse_value (rt := text_runtime) row).
Proof. unfold SQLiteKV.parse_value. by destruct (String.eqb _ _). Qed.

Lemma entry_read_until_expiry_witness :
  let db' : table := {[ ("n", "k") := KvRow.mk "1" application_json 1 (Some 2010) 10 ]} in
  SQLiteKV.get (rt := text_runtime) db' 2010 "n" "k" None
  = (Ok None, base.delete ("n", "k") db').
Proof.
  intros db'.
  refine (proj2 (entry_read_until_expiry (rt := text_runtime) ∅ db' 10 10 2010 "n" "k"
                   "1" (Some (SetOptions.mk (Some 2) None None)) 1 2 _ _ _ _) _).
  - reflexivity.
  - reflexivity.
  - lia.
  - intros row _. apply text_runtime_reads.
  - lia.
Defined.

Lemma entry_without_ttl_stays_witness :
  let db' : table := {[ ("n", "k") := KvRow.mk "1" application_json 1 None 10 ]} in
  ∃ r, SQLiteKV.get (rt := text_runtime) db' 999999 "n" "k" None = (Ok (Some r), db')
       ∧ version (metadata r) = 1
       ∧ expiresAt (metadata r) = None.
Proof.
  intros db'.
  refine (entry_without_ttl_stays (rt := text_runtime) ∅ db' 10 10 999999 "n" "k" "1"
            (Some (SetOptions.mk (Some 0) None None)) 1 _ _ _).
  - reflexivity.
  - by right.
  - intros row _. apply text_runtime_reads.
Defined.

Lemma get_other_contentType_witness :
  let db : table := {[ ("n", "k") := KvRow.mk "1" "text/plain" 1 None 10 ]} in
  SQLiteKV.get (rt := text_runtime) db 20 "n" "k"
    (Some (GetOptions.mk (Some "application/json"))) = (Ok None, db).
Proof.
  intros db.
  refine (get_other_contentType (rt := text_runtime) db 20 "n" "k"
            (KvRow.mk "1" "text/plain" 1 None 10) "application/json" _ _ _ _);
    [reflexivity|reflexivity|discriminate|discriminate].
Defined.

Lemma get_after_set_buffer_witness :
  let db' : table := {[ ("n", "k") := KvRow.mk "bytes" "text/plain" 1 None 10 ]} in
  SQLiteKV.get (rt := text_runtime) db' 20 "n" "k" None
  = (Ok (Some {| value := "bytes" : @JsValue text_runtime;
                 metadata := {| version := 1; expiresAt := None; updatedAt := 10;
                                contentType := "text/plain" |} |}),
     db').
Proof.
  intros db'.
  refine (get_after_set_buffer (rt := text_runtime) ∅ db' 10 10 20 "n" "k" "bytes"
            (Some (SetOptions.mk None (Some "text/plain") None)) 1 "text/plain"
            _ _ _ _).
  - reflexivity.
  - reflexivity.
  - discriminate.
  - intros e [=].
Defined.

Lemma set_after_delete_restarts_witness :
  let db : table := {[ ("n", "k") := KvRow.mk "1" application_json 7 None 10 ]} in
  (SQLiteKV.set (rt := text_runtime) (SQLiteKV.delete db "n" "k").2 20 20 "n" "k" "2"
     None).1 = Ok 1.
Proof.
  intros db.
  refine (set_after_delete_restarts (rt := text_runtime) db 20 20 "n" "k" "2" None "2"
            _ _); reflexivity.
Defined.

Lemma second_cas_writer_loses_witness :
  let db : table := {[ ("n", "k") := KvRow.mk "0" application_json 5 None 10 ]} in
  let db1 : table := {[ ("n", "k") := KvRow.mk "1" application_json 6 None 20 ]} in
  SQLiteKV.set (rt := text_runtime) db1 30 30 "n" "k" "2"
    (Some (SetOptions.mk None None (Some 5)))
  = (Throw (CAS_failed version_mismatch), db1).
Proof.
  intros db db1.
  refine (second_cas_writer_loses (rt := text_runtime) db db1 "n" "k" 5
            20 20 "1" (Some (SetOptions.mk None None (Some 5)))
            30 30 "2" (Some (SetOptions.mk None None (Some 5))) "2" _ _ _ _ _).
  - reflexivity.
  - reflexivity.
  - by vm_compute.
  - reflexivity.
  - intros row Hrow. vm_compute in Hrow. injection Hrow as <-.
    split; [reflexivity|by eexists].
Defined.

(** ** Sweeping *)

Section sweeping.
Context `{rt : JsRuntime}.

Lemma size_split_expired (db : table) now :
  size db
  = (size (filter (λ kr, expired now kr.2 = true) db)
     + size (filter (λ kr, expired now kr.2 = false) db))%nat.
Proof.
  rewrite <- (map_filter_union_complement (λ kr, expired now kr.2 = true) db) at 1.
  rewrite map_size_disj_union by apply map_disjoint_filter_complement.
  f_equal. f_equal. apply map_filter_ext. intros k row _. simpl.
  by destruct (expired now row).
Qed.

Lemma swept_lookup (db : table) now k :
  (SQLiteKV.cleanupAllExpired db now).2 !! k
  = match db !! k with
    | Some row => if expired now row then None else Some row
    | None => None
    end.
Proof.
  unfold SQLiteKV.cleanupAllExpired. cbn [snd]. rewrite map_lookup_filter.
  destruct (db !! k) as [row|]; [|done]. simpl.
  destruct (expired now row); by simplify_option_eq.
Qed.

Lemma swept_no_expired (db : table) now :
  filter (λ kr, expired now kr.2 = true) (SQLiteKV.cleanupAllExpired db now).2 = ∅.
Proof.
  apply map_eq. intros k. rewrite lookup_empty.
  apply map_lookup_filter_None. right. intros row Hk. rewrite swept_lookup in Hk.
  destruct (db !! k) as [row'|]; [|done].
  destruct (expired now row') eqn:He; [done|]. injection Hk as <-. simpl.
  by rewrite He.
Qed.

(** [cleanupAllExpired] removes the expired rows and only them, and says
    how many: the number it returns is the [expiredEntries] that [getStats]
    gave before, [totalEntries] goes down by that number and
    [expiredEntries] to zero, a row stays exactly when it has not expired,
    and a second sweep at the same instant removes nothing. *)
Theorem cleanupAllExpired_removes_expired (db : table) now :
  (SQLiteKV.cleanupAllExpired db now).1 = expiredEntries (SQLiteKV.getStats db now)
  ∧ totalEntries (SQLiteKV.getStats (SQLiteKV.cleanupAllExpired db now).2 now)
    = totalEntries (SQLiteKV.getStats db now) - (SQLiteKV.cleanupAllExpired db now).1
  ∧ expiredEntries (SQLiteKV.getStats (SQLiteKV.cleanupAllExpired db now).2 now) = 0
  ∧ (∀ k row, (SQLiteKV.cleanupAllExpired db now).2 !! k = Some row ↔
              db !! k = Some row ∧ expired now row = false)
  ∧ SQLiteKV.cleanupAllExpired (SQLiteKV.cleanupAllExpired db now).2 now
    = (0, (SQLiteKV.cleanupAllExpired db now).2).
Proof.
  split_and!.
  - done.
  - unfold SQLiteKV.getStats, SQLiteKV.cleanupAllExpired. cbn [fst snd totalEntries].
    rewrite (size_split_expired db now). lia.
  - unfold SQLiteKV.getStats. cbn [expiredEntries].
    by rewrite swept_no_expired, map_size_empty.
  - intros k row. rewrite swept_lookup.
    destruct (db !! k) as [row'|]; [|split; [done|by intros [? _]]].
    destruct (expired now row') eqn:He.
    + split; [done|]. intros [[= ->] He']. congruence.
    + split; [by intros [= <-]|by intros [[= ->] _]].
  - unfold SQLiteKV.cleanupAllExpired at 1. f_equal.
    + by rewrite swept_no_expired, map_size_empty.
    + apply map_filter_id. intros k row Hk. simpl.
      rewrite swept_lookup in Hk.
      destruct (db !! k) as [row'|]; [|done].
      destruct (expired now row') eqn:He; [done|]. by injection Hk as <-.
Qed.

Lemma swept_exists_expired (db : table) now ns :
  SQLiteKV.exists_expired (SQLiteKV.cleanupAllExpired db now).2 ns now = false.
Proof.
  apply exists_expired_false. intros key row Hk. rewrite swept_lookup in Hk.
  destruct (db !! (ns, key)) as [row'|]; [|done].
  destruct (expired now row') eqn:He; [done|]. by injection Hk as <-.
Qed.

Lemma ordered_keys_length (db : table) ns prefix startKey :
  (length (SQLiteKV.ordered_keys db ns prefix startKey) ≤ size db)%nat.
Proof.
  unfold SQLiteKV.ordered_keys.
  rewrite merge_sort_Permutation, length_fmap, <- length_map_to_list.
  apply length_filter.
Qed.

(** Sweeping first makes the listing whole: after [cleanupAllExpired], a
    caller that follows the cursors from the start, with any limit of at
    least 1, ends and has received exactly the keys of the namespace that
    are live, each once, in ascending order, provided none of them is the
    empty string and all are well-formed text. *)
Theorem paginate_after_sweep (db : table) now ns limit fuel :
  0 < limit →
  (∀ k, live_key db now ns k → truthy k = true ∧ utf8_toString k = k) →
  (size db < fuel)%nat →
  ∃ pages,
    paginate fuel (SQLiteKV.cleanupAllExpired db now).2 now ns (Some limit) None None
    = Done pages
    ∧ ascending (concat pages)
    ∧ ∀ k, k ∈ concat pages ↔ live_key db now ns k.
Proof.
  intros Hpos Hkeys Hfuel.
  set (db' := (SQLiteKV.cleanupAllExpired db now).2).
  assert (∀ k, k ∈ SQLiteKV.ordered_keys db' ns None "" ↔ live_key db now ns k)
    as Hlive.
  { intros k. rewrite ordered_keys_live by apply swept_exists_expired.
    unfold live_key. subst db'. split.
    - intros (row & Hk & He). exists row. rewrite swept_lookup in Hk.
      destruct (db !! (ns, k)) as [row'|]; [|done].
      destruct (expired now row') eqn:He'; [done|]. by injection Hk as <-.
    - intros (row & Hk & He). exists row. by rewrite swept_lookup, Hk, He. }
  destruct (paginate_from fuel db' now ns limit None []
              (SQLiteKV.ordered_keys db' ns None "") None)
    as (pages & Hpages & Hconcat & _); try done.
  - apply swept_exists_expired.
  - intros k Hk. by apply elem_of_nil in Hk.
  - intros k Hk. by apply Hkeys, Hlive.
  - by left.
  - pose proof (ordered_keys_length db' ns None "") as Hlen.
    assert (size db' ≤ size db)%nat; [|lia].
    subst db'. unfold SQLiteKV.cleanupAllExpired. cbn [snd].
    rewrite (size_split_expired db now). lia.
  - exists pages. rewrite Hconcat. split_and!; [done| |done].
    apply ordered_keys_ascending.
Qed.

End sweeping.

Lemma paginate_after_sweep_witness :
  let live := KvRow.mk "1" application_json 1 None 0 in
  let old := KvRow.mk "1" application_json 1 (Some 1000) 0 in
  let db : table := {[ ("n", "a") := live; ("n", "b") := old; ("n", "c") := live ]} in
  ∃ pages,
    paginate (rt := text_runtime) 4 (SQLiteKV.cleanupAllExpired db 5000).2 5000 "n"
      (Some 1) None None = Done pages
    ∧ ascending (concat pages)
    ∧ ∀ k, k ∈ concat pages ↔ live_key db 5000 "n" k.
Proof.
  intros live old db.
  refine (paginate_after_sweep (rt := text_runtime) db 5000 "n" 1 4 _ _ _).
  - lia.
  - intros k (row & Hk & He). split; [|done].
    unfold truthy. apply negb_true_iff, String.eqb_neq. intros ->.
    by vm_compute in Hk.
  - by vm_compute.
Defined.

Lemma paginate_complete_witness :
  let row := KvRow.mk "1" application_json 1 None 0 in
  let db : table := {[ ("n", "a") := row; ("n", "b") := row; ("n", "c") := row ]} in
  ∃ pages,
    paginate (rt := text_runtime) 4 db 0 "n" (Some 2) None None = Done pages
    ∧ concat pages = SQLiteKV.ordered_keys db "n" None ""
    ∧ ascending (concat pages)
    ∧ Forall (λ page : list string, (length page ≤ Z.to_nat 2)%nat) pages.
Proof.
  intros row db.
  refine (paginate_complete (rt := text_runtime) db 0 "n" 2 None 4 _ _ _ _).
  - by vm_compute.
  - lia.
  - intros k Hk.
    assert (SQLiteKV.ordered_keys db "n" None "" = ["a"; "b"; "c"]) as Hkeys
      by by vm_compute.
    rewrite Hkeys in Hk.
    repeat (apply elem_of_cons in Hk as [-> | Hk]; [done|]).
    by apply elem_of_nil in Hk.
  - by vm_compute.
Defined.

(** ** More on pages *)

Section page_properties.
Context `{rt : JsRuntime}.

Lemma exists_expired_agree (db1 db2 : table) ns now :
  (∀ k, db1 !! (ns, k) = db2 !! (ns, k)) →
  SQLiteKV.exists_expired db1 ns now = SQLiteKV.exists_expired db2 ns now.
Proof.
  intros Hsame.
  destruct (SQLiteKV.exists_expired db2 ns now) eqn:H2.
  - destruct (SQLiteKV.exists_expired db1 ns now) eqn:H1; [done|].
    rewrite exists_expired_false in H1.
    apply not_false_iff_true in H2. exfalso. apply H2.
    apply exists_expired_false. intros key row Hk. apply (H1 key). by rewrite Hsame.
  - rewrite exists_expired_false in H2. apply exists_expired_false.
    intros key row Hk. apply (H2 key). by rewrite <- Hsame.
Qed.

Lemma ordered_keys_agree (db1 db2 : table) ns prefix startKey :
  (∀ k, db1 !! (ns, k) = db2 !! (ns, k)) →
  SQLiteKV.ordered_keys db1 ns prefix startKey
  = SQLiteKV.ordered_keys db2 ns prefix startKey.
Proof.
  intros Hsame. apply ascending_ext; [apply ordered_keys_ascending..|].
  intros k. rewrite !elem_of_ordered_keys. by rewrite Hsame.
Qed.

(** Namespaces do not see each other: what [list] gives for a namespace
    depends on the rows of that namespace only.  Rows written, expired or
    deleted elsewhere change neither its pages nor its cursors nor whether
    it throws. *)
Theorem list_namespace_isolated (db1 db2 : table) now ns options :
  (∀ k, db1 !! (ns, k) = db2 !! (ns, k)) →
  SQLiteKV.list db1 now ns options = SQLiteKV.list db2 now ns options.
Proof.
  intros Hsame. rewrite !list_unfold. cbv zeta. rewrite !select_rows_spec.
  by rewrite (exists_expired_agree db1 db2), (ordered_keys_agree db1 db2).
Qed.


(** A negative limit never gives a plain page.  With the limit -1 [list]
    throws a TypeError on every table.  With a limit below -1 it throws
    when the query has at most that many rows, and otherwise returns the
    rows but the last ones, as many as the limit counts, with a cursor. *)
Theorem list_negative_limit (db : table) now ns limit cur prefix :
  limit < 0 →
  let rows := SQLiteKV.select_rows db now ns prefix (SQLiteKV.startKey_of cur) limit in
  (limit = -1 → rows = [])
  ∧ ((length rows ≤ Z.to_nat (- limit))%nat →
     SQLiteKV.list db now ns (Some (ListOptions.mk (Some limit) cur prefix))
     = Throw TypeError)
  ∧ ((Z.to_nat (- limit) < length rows)%nat →
     ∃ k, last (take (length rows - Z.to_nat (- limit)) rows) = Some k
          ∧ SQLiteKV.list db now ns (Some (ListOptions.mk (Some limit) cur prefix))
            = Ok {| keys := take (length rows - Z.to_nat (- limit)) rows;
                    cursor := Some (Base64.encode k) |}).
Proof.
  intros Hneg rows.
  assert (SQLiteKV.list db now ns (Some (ListOptions.mk (Some limit) cur prefix))
          = match last (take (length rows - Z.to_nat (- limit)) rows) with
            | Some k => Ok {| keys := take (length rows - Z.to_nat (- limit)) rows;
                              cursor := Some (Base64.encode k) |}
            | None => Throw TypeError
            end) as ->.
  { rewrite list_unfold. cbv zeta.
    cbn [default mbind option_bind ListOptions.limit ListOptions.prefix
         ListOptions.cursor from_option]. unfold id. fold rows.
    assert ((Z.of_nat (length rows) >? limit) = true) as ->
      by (rewrite Z.gtb_ltb; apply Z.ltb_lt; lia).
    unfold SQLiteKV.slice0.
    by assert ((limit <? 0) = true) as -> by (apply Z.ltb_lt; lia). }
  split_and!.
  - intros ->. subst rows. rewrite select_rows_spec.
    by destruct (SQLiteKV.exists_expired db ns now).
  - intros Hfew. by replace (length rows - Z.to_nat (- limit))%nat with 0%nat by lia.
  - intros Hmany.
    destruct (last (take (length rows - Z.to_nat (- limit)) rows)) as [k|] eqn:Hlast.
    + by exists k.
    + apply last_None in Hlast. apply (f_equal length) in Hlast.
      rewrite length_take in Hlast. simpl in Hlast. lia.
Qed.

(** The cursor of a page is the last key of that page in base64: decoded,
    it gives that key back, byte for byte. *)
Theorem list_cursor_decodes_to_last_key (db : table) now ns options res c :
  SQLiteKV.list db now ns options = Ok res →
  cursor res = Some c →
  last (keys res) = Some (Base64.decode c).
Proof.
  intros [_ Hcur]%list_page Hc.
  destruct (Hcur c Hc) as (k & Hlast & ->). by rewrite decode_encode.
Qed.

(** Every key of a page is a live key of the namespace asked for, and the
    keys of a page are in strictly ascending order: [list] returns no key
    of an expired row, no key of another namespace, and no key twice. *)
Theorem list_returns_live_keys (db : table) now ns options res :
  SQLiteKV.list db now ns options = Ok res →
  ascending (keys res)
  ∧ ∀ k, k ∈ keys res → live_key db now ns k.
Proof.
  intros Hlist. pose proof Hlist as [Hsub _]%list_page. split.
  - rewrite list_unfold in Hlist. cbv zeta in Hlist.
    destruct (Z.gtb _ _).
    + destruct (last _); [|done]. injection Hlist as <-. simpl.
      unfold SQLiteKV.slice0. destruct (Z.ltb _ _);
        apply ascending_take, select_rows_ascending.
    + injection Hlist as <-. apply select_rows_ascending.
  - intros k Hk%Hsub%select_rows_stored. destruct Hk as (Hno & row & Hk & _).
    exists row. split; [done|]. by eapply exists_expired_false.
Qed.

End page_properties.

Lemma list_namespace_isolated_witness :
  let row := KvRow.mk "1" application_json 1 None 0 in
  let old := KvRow.mk "1" application_json 1 (Some 1000) 0 in
  let db1 : table := {[ ("n", "a") := row ]} in
  let db2 : table := {[ ("n", "a") := row; ("m", "z") := old ]} in
  SQLiteKV.list (rt := text_runtime) db1 5000 "n" None
  = SQLiteKV.list (rt := text_runtime) db2 5000 "n" None.
Proof.
  intros row old db1 db2.
  refine (list_namespace_isolated (rt := text_runtime) db1 db2 5000 "n" None _).
  intros k. subst db1 db2. destruct (decide (k = "a")) as [->|Hne].
  - by rewrite lookup_singleton_eq, lookup_insert_eq.
  - rewrite lookup_singleton_ne, lookup_insert_ne, lookup_singleton_ne by congruence.
    done.
Defined.


Lemma list_negative_limit_witness :
  let row := KvRow.mk "1" application_json 1 None 0 in
  let db : table := {[ ("n", "a") := row; ("n", "b") := row; ("n", "c") := row ]} in
  SQLiteKV.list (rt := text_runtime) db 0 "n"
    (Some (ListOptions.mk (Some (-3)) None None)) = Throw TypeError.
Proof.
  intros row db.
  refine (proj1 (proj2 (list_negative_limit (rt := text_runtime) db 0 "n" (-3) None
                          None _)) _).
  - lia.
  - by vm_compute.
Defined.

Lemma list_cursor_decodes_to_last_key_witness :
  let row := KvRow.mk "1" application_json 1 None 0 in
  let db : table := {[ ("n", "a") := row; ("n", "b") := row; ("n", "c") := row ]} in
  last ["a"; "b"] = Some (Base64.decode "Yg==").
Proof.
  intros row db.
  refine (list_cursor_decodes_to_last_key (rt := text_runtime) db 0 "n"
            (Some (ListOptions.mk (Some 2) None None))
            {| keys := ["a"; "b"]; cursor := Some "Yg==" |} "Yg==" _ _).
  - by vm_compute.
  - reflexivity.
Defined.

Lemma list_returns_live_keys_witness :
  let row := KvRow.mk "1" application_json 1 None 0 in
  let db : table := {[ ("n", "a") := row; ("n", "b") := row ]} in
  ascending ["a"; "b"] ∧ ∀ k, k ∈ ["a"; "b"] → live_key db 0 "n" k.
Proof.
  intros row db.
  refine (list_returns_live_keys (rt := text_runtime) db 0 "n" None
            {| keys := ["a"; "b"]; cursor := None |} _).
  by vm_compute.
Defined.

(** ** The prefix filter *)

Section prefix_filter.
Context `{rt : JsRuntime}.

Lemma app_String (c : ascii) (s t : string) :
  String c s +:+ t = String c (s +:+ t).
Proof. reflexivity. Qed.

Lemma star_here (k : string → bool) (s : string) :
  k s = true → Like.star k false s = true.
Proof. intros Hk. destruct s as [|b s]; simpl; [done|]. by rewrite Hk. Qed.

Lemma star_end (inchar : bool) (s : string) :
  Like.star (Like.like "") inchar s = true.
Proof.
  revert inchar. induction s as [|b s IH]; intros inchar; [done|].
  cbn [Like.star]. destruct (inchar && Like.is_continuation b); [done|].
  rewrite IH. apply orb_true_r.
Qed.

(** [LIKE] with the pattern made of a prefix and [%] accepts every string
    that starts with the prefix, whatever characters the prefix holds. *)
Lemma like_prefix (p rest : string) : Like.like (p +:+ "%") (p +:+ rest) = true.
Proof.
  induction p as [|c p IH].
  - change (Like.star (Like.like "") false rest = true). apply star_end.
  - rewrite !app_String. cbn [Like.like].
    destruct (Ascii.eqb c "%") eqn:Hpc.
    + cbn [Like.star]. rewrite andb_false_l.
      apply orb_true_iff. right.
      apply Ascii.eqb_eq in Hpc as ->. by apply star_here.
    + destruct (Ascii.eqb c "_") eqn:Hus.
      * apply Ascii.eqb_eq in Hus as ->. done.
      * by rewrite Ascii.eqb_refl.
Qed.

(** The prefix filter loses nothing.  In a namespace that stores no expired
    row, a caller that follows the cursors with a prefix receives every
    live key that starts with the prefix (together, because the prefix is
    a [LIKE] pattern, with whatever other keys the pattern accepts). *)
Theorem paginate_prefix_complete (db : table) now ns limit p rest row fuel :
  SQLiteKV.exists_expired db ns now = false →
  0 < limit →
  (∀ k, is_Some (db !! (ns, k)) → truthy k = true ∧ utf8_toString k = k) →
  (size db < fuel)%nat →
  db !! (ns, p +:+ rest) = Some row →
  ∃ pages,
    paginate fuel db now ns (Some limit) (Some p) None = Done pages
    ∧ p +:+ rest ∈ concat pages.
Proof.
  intros Hno Hpos Hkeys Hfuel Hk.
  destruct (paginate_from fuel db now ns limit (Some p) []
              (SQLiteKV.ordered_keys db ns (Some p) "") None)
    as (pages & Hpages & Hconcat & _); try done.
  - intros k Hin. by apply elem_of_nil in Hin.
  - intros k (row' & Hk' & _)%elem_of_ordered_keys. apply Hkeys. by eexists.
  - by left.
  - pose proof (ordered_keys_length db ns (Some p) ""). lia.
  - exists pages. split; [done|]. rewrite Hconcat.
    apply elem_of_ordered_keys. exists row. split; [done|].
    unfold SQLiteKV.where_inner. rewrite String.eqb_refl, like_prefix.
    by destruct (truthy p).
Qed.

End prefix_filter.

Lemma paginate_prefix_complete_witness :
  let row := KvRow.mk "1" application_json 1 None 0 in
  let db : table := {[ ("n", "u:a") := row; ("n", "u:b") := row; ("n", "v:a") := row ]} in
  ∃ pages,
    paginate (rt := text_runtime) 4 db 0 "n" (Some 1) (Some "u:") None = Done pages
    ∧ "u:" +:+ "b" ∈ concat pages.
Proof.
  intros row db.
  refine (paginate_prefix_complete (rt := text_runtime) db 0 "n" 1 "u:" "b" row 4
            _ _ _ _ _).
  - by vm_compute.
  - lia.
  - intros k [row' Hk]. split; [|done].
    unfold truthy. apply negb_true_iff, String.eqb_neq. intros ->.
    by vm_compute in Hk.
  - by vm_compute.
  - by vm_compute.
Defined.

(** ** The helpers *)

Section helpers_properties.
Context `{rt : JsRuntime}.

(** What [setJSON] writes, [getJSON] reads: whatever options [setJSON] was
    given, a content type among them or not, the entry is stored as
    ['application/json'], and [getJSON] before its expiry returns the value
    parsed back from its JSON text, at the version [setJSON] returned. *)
Theorem getJSON_after_setJSON (db db' : table) now now_get now' ns key value options
    ver text parsed :
  KVHelpers.setJSON db now now_get ns key value options = (Ok ver, db') →
  JSON_stringify value = Some text →
  utf8_toString text = text →
  JSON_parse text = Some parsed →
  (∀ e, SQLiteKV.expiresAt_of now (options ≫= SetOptions.ttl) = Some e → now' < e) →
  KVHelpers.getJSON db' now' ns key
  = (Ok (Some {| value := parsed;
                 metadata := {| version := ver;
                                expiresAt := SQLiteKV.expiresAt_of now
                                               (options ≫= SetOptions.ttl);
                                updatedAt := now;
                                contentType := "application/json" |} |}),
     db').
Proof.
  intros Hset Htext Hutf Hparse Hlive. unfold KVHelpers.setJSON in Hset.
  apply set_success_row in Hset as (s & Hs & Hrow). simpl in Hs, Hrow.
  unfold SQLiteKV.serialize in Hs. simpl in Hs. rewrite Htext in Hs.
  injection Hs as <-. unfold KVHelpers.getJSON.
  rewrite (get_live_filtered db' now' ns key _ parsed _ Hrow); [done|..].
  - unfold expired. simpl.
    destruct (SQLiteKV.expiresAt_of _ _) as [e|]; [|done].
    apply Z.leb_gt. by apply Hlive.
  - done.
  - unfold SQLiteKV.parse_value. simpl. by rewrite Hutf.
Qed.

End helpers_properties.

Lemma getJSON_after_setJSON_witness :
  let db' : table := {[ ("n", "k") := KvRow.mk "{}" application_json 1 None 10 ]} in
  KVHelpers.getJSON (rt := text_runtime) db' 99 "n" "k"
  = (Ok (Some {| value := "{}" : @JsValue text_runtime;
                 metadata := {| version := 1; expiresAt := None; updatedAt := 10;
                                contentType := "application/json" |} |}),
     db').
Proof.
  intros db'.
  refine (getJSON_after_setJSON (rt := text_runtime) ∅ db' 10 10 99 "n" "k" "{}"
            (Some (SetOptions.mk None (Some "text/plain") None)) 1 "{}" "{}"
            _ _ _ _ _).
  - reflexivity.
  - reflexivity.
  - reflexivity.
  - reflexivity.
  - intros e [=].
Defined.

(** ** Build ids and scores *)

Section build_ids.
Variable toLowerCase : string → string.

Lemma replace_runs_chars (in_run : bool) (s : string) :
  Builds.id_chars (Builds.replace_runs in_run s) = true.
Proof.
  revert in_run. induction s as [|c s IH]; intros in_run; [done|].
  cbn [Builds.replace_runs]. destruct (Builds.is_alnum c) eqn:Hc.
  - cbn [Builds.id_chars]. by rewrite Hc, IH.
  - destruct in_run; [done|]. cbn [Builds.id_chars]. rewrite IH.
    by rewrite orb_true_r.
Qed.

Lemma drop_leading_chars (s : string) :
  Builds.id_chars s = true → Builds.id_chars (Builds.drop_leading s) = true.
Proof.
  induction s as [|c s IH]; [done|]. intros Hs. cbn [Builds.drop_leading].
  destruct (Ascii.eqb c "_"); [|done]. apply IH.
  cbn [Builds.id_chars] in Hs. by apply andb_prop in Hs as [_ ?].
Qed.

Lemma drop_trailing_chars (s : string) :
  Builds.id_chars s = true → Builds.id_chars (Builds.drop_trailing s) = true.
Proof.
  induction s as [|c s IH]; [done|]. intros Hs. cbn [Builds.drop_trailing].
  cbn [Builds.id_chars] in Hs. apply andb_prop in Hs as [Hc Hs].
  destruct (_ && _); [done|]. cbn [Builds.id_chars]. by rewrite Hc, IH.
Qed.

Lemma substring_chars (n : nat) (s : string) :
  Builds.id_chars s = true → Builds.id_chars (String.substring 0 n s) = true.
Proof.
  revert s. induction n as [|n IH]; intros [|c s] Hs; try done.
  cbn [String.substring Builds.id_chars] in *.
  apply andb_prop in Hs as [Hc Hs]. by rewrite Hc, IH.
Qed.

Lemma substring_length (n : nat) (s : string) :
  (String.length (String.substring 0 n s) ≤ n)%nat.
Proof.
  revert s. induction n as [|n IH]; intros [|c s]; simpl; try lia.
  specialize (IH s). lia.
Qed.

Lemma drop_leading_head (s : string) (rest : string) :
  Builds.drop_leading s ≠ String "_" rest.
Proof.
  induction s as [|c s IH]; [done|]. cbn [Builds.drop_leading].
  destruct (Ascii.eqb c "_") eqn:Hc; [done|].
  intros [= -> _]. done.
Qed.

Lemma drop_trailing_head (s : string) :
  (∀ rest, s ≠ String "_" rest) →
  ∀ rest, Builds.drop_trailing s ≠ String "_" rest.
Proof.
  intros Hs rest. destruct s as [|c s]; [done|]. cbn [Builds.drop_trailing].
  destruct (_ && _); [done|]. intros [= -> _]. by apply (Hs s).
Qed.

(** [sanitizeBuildId] gives, for every name, an id of at most 50
    characters, all of them among [a-z], [0-9] and [_], that does not begin
    with [_]. *)
Theorem sanitizeBuildId_shape (name : string) :
  Builds.id_chars (Builds.sanitizeBuildId toLowerCase name) = true
  ∧ (String.length (Builds.sanitizeBuildId toLowerCase name) ≤ 50)%nat
  ∧ ∀ rest, Builds.sanitizeBuildId toLowerCase name ≠ String "_" rest.
Proof.
  unfold Builds.sanitizeBuildId. split_and!.
  - apply substring_chars, drop_trailing_chars, drop_leading_chars,
      replace_runs_chars.
  - apply substring_length.
  - intros rest.
    pose proof (drop_trailing_head _ (drop_leading_head
      (Builds.replace_runs false (toLowerCase name)))) as Hhead.
    destruct (Builds.drop_trailing _) as [|c s]; [done|].
    cbn [String.substring]. intros [= -> _]. by apply (Hhead s).
Qed.

(** The score of a car is at most 100; with stats that are not negative it
    is not negative either and at least what the same stats give on stock
    parts, capped at 100; and the default car scores 50, the number that
    [getBuildDetails] reports for a build it has not found. *)
Theorem calculatePerformanceScore_bounds (car : CarConfig) :
  Models.calculatePerformanceScore car ≤ 100
  ∧ (0 ≤ power (performance car) → 0 ≤ grip (performance car) →
     0 ≤ aero (performance car) → 0 ≤ weight (performance car) →
     0 ≤ Models.calculatePerformanceScore car
     ∧ Models.calculatePerformanceScore
         {| wheels := wh_stock; bodyKit := bk_stock; spoiler := sp_none;
            performance := performance car |}
       ≤ Models.calculatePerformanceScore car)
  ∧ Models.calculatePerformanceScore Models.createDefaultCarConfig = 50.
Proof.
  unfold Models.calculatePerformanceScore, Models.round_quarters. split_and!.
  - lia.
  - intros Hp Hg Ha Hw. cbn [wheels bodyKit spoiler performance].
    assert (0 ≤ Models.bodyKitBonus (bodyKit car)) by by destruct (bodyKit car).
    assert (0 ≤ Models.wheelBonus (wheels car)) by by destruct (wheels car).
    assert (0 ≤ Models.spoilerBonus (spoiler car)) by by destruct (spoiler car).
    cbn [Models.bodyKitBonus Models.wheelBonus Models.spoilerBonus].
    split.
    + apply Z.min_glb; [lia|]. apply Z.div_pos; lia.
    + apply Z.min_le_compat_l. apply Z.div_le_mono; lia.
  - reflexivity.
Qed.

End build_ids.

Lemma calculatePerformanceScore_bounds_witness :
  let car := {| wheels := wh_racing; bodyKit := bk_racing; spoiler := sp_gt_wing;
                performance := {| power := 90; grip := 80; aero := 85; weight := 70 |} |} in
  0 ≤ Models.calculatePerformanceScore car
  ∧ Models.calculatePerformanceScore
      {| wheels := wh_stock; bodyKit := bk_stock; spoiler := sp_none;
         performance := performance car |}
    ≤ Models.calculatePerformanceScore car.
Proof.
  intros car.
  refine (proj1 (proj2 (calculatePerformanceScore_bounds car)) _ _ _ _);
    simpl; lia.
Defined.

(** ** The builds of a user *)

Section builds.
Context `{rt : JsRuntime}.
Variable toLowerCase : string → string.
Variable createBuild : string → Z → JsValue.
Variable saved_as : JsValue → string → string → Z → JsValue.
Variable made_active : JsValue → Z → JsValue.
Variable car_of : JsValue → CarConfig.

Lemma buildKey_inj (user b1 b2 : string) :
  Builds.buildKey user b1 = Builds.buildKey user b2 → b1 = b2.
Proof.
  unfold Builds.buildKey. intros Heq.
  by apply (inj (String.app user)), (inj (String.app ":")) in Heq.
Qed.

Lemma getJSON_frame (db : table) now ns key k :
  k ≠ (ns, key) → (KVHelpers.getJSON db now ns key).2 !! k = db !! k.
Proof.
  intros Hne. unfold KVHelpers.getJSON. rewrite get_table.
  by apply cleanupExpired_other.
Qed.

Lemma setJSON_frame (db : table) now now_get ns key value options k :
  k ≠ (ns, key) →
  (KVHelpers.setJSON db now now_get ns key value options).2 !! k = db !! k.
Proof. intros Hne. by apply set_frame. Qed.

Lemma getCurrentBuild_frame (db : table) identity t_get t_new t_set k :
  k ≠ (Builds.BUILDS_NAMESPACE, Builds.buildKey (userId identity) Builds.ACTIVE_BUILD_KEY) →
  (Builds.getCurrentBuild createBuild db identity t_get t_new t_set).2 !! k = db !! k.
Proof.
  intros Hne. unfold Builds.getCurrentBuild. cbv zeta.
  pose proof (getJSON_frame db t_get Builds.BUILDS_NAMESPACE
                (Builds.buildKey (userId identity) Builds.ACTIVE_BUILD_KEY) k Hne)
    as Hget.
  destruct (KVHelpers.getJSON db t_get _ _) as [[[res|]|e] db1];
    cbn [snd] in Hget |- *; try done.
  pose proof (setJSON_frame db1 t_set t_set Builds.BUILDS_NAMESPACE
                (Builds.buildKey (userId identity) Builds.ACTIVE_BUILD_KEY)
                (createBuild Builds.ACTIVE_BUILD_KEY t_new) None k Hne) as Hset.
  destruct (KVHelpers.setJSON db1 t_set t_set _ _ _ _) as [[ver|e] db2];
    cbn [snd] in Hset |- *; congruence.
Qed.

(** [deleteBuild] cannot remove the active build of the user: asked for the
    id ['active'] it throws and leaves the table as it was, and for every
    other id the row of the active build is what it was. *)
Theorem deleteBuild_spares_active (db db' : table) identity buildId r :
  Builds.deleteBuild db identity buildId = (r, db') →
  db' !! (Builds.BUILDS_NAMESPACE,
          Builds.buildKey (userId identity) Builds.ACTIVE_BUILD_KEY)
  = db !! (Builds.BUILDS_NAMESPACE,
           Builds.buildKey (userId identity) Builds.ACTIVE_BUILD_KEY)
  ∧ (buildId = "active" → r = Raised Cannot_delete_the_active_build ∧ db' = db).
Proof.
  unfold Builds.deleteBuild, SQLiteKV.delete.
  destruct (String.eqb buildId Builds.ACTIVE_BUILD_KEY) eqn:Hid.
  - by intros [= <- <-].
  - apply String.eqb_neq in Hid. intros Hdel. split; [|done].
    destruct (db !! (Builds.BUILDS_NAMESPACE, _)); injection Hdel as _ <-; [|done].
    apply lookup_delete_ne. intros [= Heq]. by apply buildKey_inj in Heq.
Qed.

(** [loadBuild] never answers "Access denied": its check compares the user
    with itself.  When it returns a build, that build is stored as the
    active build of the user, as JSON and without expiry. *)
Theorem loadBuild_outcomes (db db' : table) identity buildId t_get t_active t_set r :
  Builds.loadBuild made_active db identity buildId t_get t_active t_set = (r, db') →
  r ≠ Raised Access_denied
  ∧ ∀ build, r = Returned build →
      ∃ text ver,
        JSON_stringify build = Some text
        ∧ db' !! (Builds.BUILDS_NAMESPACE,
                  Builds.buildKey (userId identity) Builds.ACTIVE_BUILD_KEY)
          = Some (KvRow.mk text application_json ver None t_set).
Proof.
  unfold Builds.loadBuild, canAccessBuild. cbv zeta.
  rewrite String.eqb_refl. cbn [negb].
  destruct (KVHelpers.getJSON db t_get _ _) as [[[res|]|e] db1];
    [|by intros [= <- <-]..].
  destruct (KVHelpers.setJSON db1 t_set t_set _ _ _ _) as [[ver|e] db2] eqn:Hset;
    [|by intros [= <- <-]].
  intros [= <- <-]. split; [done|]. intros build [= <-].
  apply set_success_row in Hset as (s & Hs & Hrow). simpl in Hs, Hrow.
  exists s, ver. done.
Qed.

(** [saveBuild] does not overwrite a saved build.  When the key of the name
    holds an entry that [getJSON] can read, and is not the key of the active
    build, [saveBuild] does not return a build, whatever else happens, and
    the entry is in the table afterwards as it was. *)
Theorem saveBuild_keeps_existing (db db' : table) identity name row
    t_get t_new t_set t_check t_saved t_write r :
  let key := Builds.buildKey (userId identity) (Builds.sanitizeBuildId toLowerCase name) in
  db !! (Builds.BUILDS_NAMESPACE, key) = Some row →
  expired t_check row = false →
  KvRow.content_type row = "application/json" →
  is_Some (SQLiteKV.parse_value row) →
  Builds.sanitizeBuildId toLowerCase name ≠ "active" →
  Builds.saveBuild toLowerCase createBuild saved_as db identity name
    t_get t_new t_set t_check t_saved t_write = (r, db') →
  db' !! (Builds.BUILDS_NAMESPACE, key) = Some row
  ∧ ∀ build, r ≠ Returned build.
Proof.
  intros key Hk He Hct [x Hx] Hid. unfold Builds.saveBuild. cbv zeta. fold key.
  assert ((Builds.BUILDS_NAMESPACE, key)
          ≠ (Builds.BUILDS_NAMESPACE,
             Builds.buildKey (userId identity) Builds.ACTIVE_BUILD_KEY)) as Hne.
  { intros [= Heq]. by apply buildKey_inj in Heq. }
  pose proof (getCurrentBuild_frame db identity t_get t_new t_set _ Hne) as Hframe.
  destruct (Builds.getCurrentBuild createBuild db identity t_get t_new t_set)
    as [[active|e] db1]; cbn [snd] in Hframe.
  - rewrite Hk in Hframe. unfold KVHelpers.getJSON.
    rewrite (get_live_filtered db1 t_check _ key row x); [|done|done| |done].
    + by intros [= <- <-].
    + unfold SQLiteKV.contentType_mismatch. simpl. by rewrite Hct.
  - intros [= <- <-]. by rewrite Hframe.
Qed.

(** The active build is made once.  When the user has none, [getCurrentBuild]
    stores the default build at version 1, without expiry, and returns it;
    from then on every call, at any instant, returns the build read back
    from the store and writes nothing. *)
Theorem getCurrentBuild_creates_once (db : table) identity t_get t_new t_set text parsed :
  db !! (Builds.BUILDS_NAMESPACE,
         Builds.buildKey (userId identity) Builds.ACTIVE_BUILD_KEY) = None →
  JSON_stringify (createBuild Builds.ACTIVE_BUILD_KEY t_new) = Some text →
  utf8_toString text = text →
  JSON_parse text = Some parsed →
  let db1 := <[(Builds.BUILDS_NAMESPACE,
                Builds.buildKey (userId identity) Builds.ACTIVE_BUILD_KEY)
               := KvRow.mk text application_json 1 None t_set]> db in
  Builds.getCurrentBuild createBuild db identity t_get t_new t_set
  = (Returned (createBuild Builds.ACTIVE_BUILD_KEY t_new), db1)
  ∧ ∀ t_get' t_new' t_set',
      Builds.getCurrentBuild createBuild db1 identity t_get' t_new' t_set'
      = (Returned parsed, db1).
Proof.
  intros Hk Htext Hutf Hparse db1. split.
  - unfold Builds.getCurrentBuild, KVHelpers.getJSON. cbv zeta.
    rewrite get_absent by done.
    unfold KVHelpers.setJSON.
    rewrite (set_unconditional _ _ _ _ _ _ _ text); [|done|].
    + unfold SQLiteKV.upsert. cbn [fst snd]. by rewrite Hk.
    + unfold SQLiteKV.serialize. by simpl.
  - intros t_get' t_new' t_set'.
    unfold Builds.getCurrentBuild, KVHelpers.getJSON. cbv zeta.
    rewrite (get_live_filtered db1 t_get' _ _
               (KvRow.mk text application_json 1 None t_set) parsed); [done|..].
    + subst db1. apply lookup_insert_eq.
    + done.
    + done.
    + unfold SQLiteKV.parse_value. simpl. by rewrite Hutf.
Qed.

(** For an active build that is not stored, [getBuildDetails] writes
    nothing and reports the default build with the score 50, which is the
    score [calculatePerformanceScore] computes for that build. *)
Theorem getBuildDetails_default_score (db : table) identity t_get t_new :
  db !! (Builds.BUILDS_NAMESPACE,
         Builds.buildKey (userId identity) Builds.ACTIVE_BUILD_KEY) = None →
  car_of (createBuild Builds.ACTIVE_BUILD_KEY t_new) = Models.createDefaultCarConfig →
  Builds.getBuildDetails createBuild car_of db identity None t_get t_new
  = (Returned (createBuild Builds.ACTIVE_BUILD_KEY t_new,
               Models.calculatePerformanceScore
                 (car_of (createBuild Builds.ACTIVE_BUILD_KEY t_new))),
     db).
Proof.
  intros Hk Hcar. unfold Builds.getBuildDetails, KVHelpers.getJSON. cbv zeta.
  cbn [default from_option]. unfold id. rewrite get_absent by done.
  by rewrite Hcar.
Qed.

End builds.

Lemma deleteBuild_spares_active_witness :
  let user := {| userId := "u"; email := None; name := None; authenticated := true |} in
  let row := KvRow.mk "{}" application_json 1 None 0 in
  let db : table := {[ ("builds", "u:active") := row; ("builds", "u:fast") := row ]} in
  (Builds.deleteBuild db user "fast").2 !! ("builds", "u:active")
  = db !! ("builds", "u:active").
Proof.
  intros user row db.
  refine (proj1 (deleteBuild_spares_active db _ user "fast" _ _)).
  apply surjective_pairing.
Defined.

Lemma loadBuild_outcomes_witness :
  let user := {| userId := "u"; email := None; name := None; authenticated := true |} in
  let db : table := {[ ("builds", "u:fast") := KvRow.mk "{}" application_json 1 None 0 ]} in
  (Builds.loadBuild (rt := text_runtime) (λ build _, build) db user "fast" 10 10 10).1
  ≠ Raised Access_denied.
Proof.
  intros user db.
  refine (proj1 (loadBuild_outcomes (rt := text_runtime) (λ build _, build) db _ user
                   "fast" 10 10 10 _ _)).
  apply surjective_pairing.
Defined.

Lemma saveBuild_keeps_existing_witness :
  let user := {| userId := "u"; email := None; name := None; authenticated := true |} in
  let row := KvRow.mk "{}" application_json 1 None 0 in
  let db : table := {[ ("builds", "u:fast") := row ]} in
  let out := Builds.saveBuild (rt := text_runtime) (λ s, s) (λ _ _, "{}")
               (λ build _ _ _, build) db user "fast" 10 10 10 10 10 10 in
  out.2 !! ("builds", "u:fast") = Some row ∧ ∀ build, out.1 ≠ Returned build.
Proof.
  intros user row db out.
  refine (saveBuild_keeps_existing (rt := text_runtime) (λ s, s) (λ _ _, "{}")
            (λ build _ _ _, build) db out.2 user "fast" row 10 10 10 10 10 10 out.1
            _ _ _ _ _ _).
  - reflexivity.
  - reflexivity.
  - reflexivity.
  - apply text_runtime_reads.
  - by vm_compute.
  - apply surjective_pairing.
Defined.

Lemma getCurrentBuild_creates_once_witness :
  let user := {| userId := "u"; email := None; name := None; authenticated := true |} in
  Builds.getCurrentBuild (rt := text_runtime) (λ _ _, "{}") ∅ user 10 10 10
  = (Returned ("{}" : @JsValue text_runtime),
     <[("builds", "u:active") := KvRow.mk "{}" application_json 1 None 10]> ∅).
Proof.
  intros user.
  refine (proj1 (getCurrentBuild_creates_once (rt := text_runtime) (λ _ _, "{}") ∅ user
                   10 10 10 "{}" "{}" _ _ _ _)); reflexivity.
Defined.

Lemma getBuildDetails_default_score_witness :
  let user := {| userId := "u"; email := None; name := None; authenticated := true |} in
  Builds.getBuildDetails (rt := text_runtime) (λ _ _, "{}")
    (λ _, Models.createDefaultCarConfig) ∅ user None 10 10
  = (Returned ("{}" : @JsValue text_runtime,
               Models.calculatePerformanceScore Models.createDefaultCarConfig), ∅).
Proof.
  intros user.
  refine (getBuildDetails_default_score (rt := text_runtime) (λ _ _, "{}")
            (λ _, Models.createDefaultCarConfig) ∅ user 10 10 _ _); reflexivity.
Defined.

(** ** The hash of the anonymous id *)

Section anonymous_hash.

Lemma wrap32_decomp (x : Z) : ∃ q, Pomerium.wrap32 x = x - 2 ^ 32 * q.
Proof.
  exists ((x + 2 ^ 31) / 2 ^ 32). unfold Pomerium.wrap32.
  rewrite Z.mod_eq by lia. lia.
Qed.

Lemma wrap32_shift (x k : Z) : Pomerium.wrap32 (x + k * 2 ^ 32) = Pomerium.wrap32 x.
Proof.
  unfold Pomerium.wrap32.
  replace (x + k * 2 ^ 32 + 2 ^ 31) with (x + 2 ^ 31 + k * 2 ^ 32) by lia.
  by rewrite Z_mod_plus_full.
Qed.

Lemma wrap32_range (x : Z) : - 2 ^ 31 ≤ Pomerium.wrap32 x < 2 ^ 31.
Proof.
  unfold Pomerium.wrap32.
  pose proof (Z.mod_pos_bound (x + 2 ^ 31) (2 ^ 32)). lia.
Qed.

Lemma hash_step_wrap (a code : Z) :
  Pomerium.hash_step (Pomerium.wrap32 a) code = Pomerium.wrap32 (31 * a + code).
Proof.
  unfold Pomerium.hash_step.
  destruct (wrap32_decomp a) as [q1 ->].
  destruct (wrap32_decomp ((a - 2 ^ 32 * q1) * 2 ^ 5)) as [q2 ->].
  replace ((a - 2 ^ 32 * q1) * 2 ^ 5 - 2 ^ 32 * q2 - (a - 2 ^ 32 * q1) + code)
    with (31 * a + code + (- 31 * q1 - q2) * 2 ^ 32) by lia.
  apply wrap32_shift.
Qed.

Lemma hash_fold (codes : list Z) (a : Z) :
  fold_left Pomerium.hash_step codes (Pomerium.wrap32 a)
  = Pomerium.wrap32 (fold_left (λ acc code, 31 * acc + code) codes a).
Proof.
  revert a. induction codes as [|code codes IH]; intros a; [done|].
  cbn [fold_left]. by rewrite hash_step_wrap, IH.
Qed.

(** The hash behind an anonymous id is the polynomial hash of the character
    codes with the multiplier 31, the shift and subtraction of the code
    being a multiplication by 31, brought into the signed integers of 32
    bits; it lies between [-2^31] and [2^31 - 1] for every input, so that
    the id is ["anon_"] followed by a number of at most [2^31] in base
    36. *)
Theorem hash_codes_polynomial (char_codes : string → list Z) (codes : list Z) :
  Pomerium.hash_codes codes
  = Pomerium.wrap32 (fold_left (λ acc code, 31 * acc + code) codes 0)
  ∧ - 2 ^ 31 ≤ Pomerium.hash_codes codes < 2 ^ 31
  ∧ ∀ req_ip user_agent,
      ∃ n, 0 ≤ n ≤ 2 ^ 31
           ∧ Pomerium.generateAnonymousId char_codes req_ip user_agent
             = "anon_" +:+ Pomerium.toString36 n.
Proof.
  assert (∀ l, Pomerium.hash_codes l
               = Pomerium.wrap32 (fold_left (λ acc code, 31 * acc + code) l 0)) as Heq.
  { intros l. unfold Pomerium.hash_codes. by rewrite <- hash_fold. }
  split; [done|]. split; [rewrite Heq; apply wrap32_range|].
  intros req_ip user_agent. unfold Pomerium.generateAnonymousId. cbv zeta.
  eexists. split; [|done]. rewrite Heq.
  pose proof (wrap32_range
    (fold_left (λ acc code, 31 * acc + code)
       (char_codes (match req_ip with
                    | Some s => if truthy s then s else "unknown"
                    | None => "unknown"
                    end +:+ ":" +:+
                    match user_agent with
                    | Some s => if truthy s then s else "unknown"
                    | None => "unknown"
                    end)) 0)).
  lia.
Qed.

End anonymous_hash.
